(** * Keyboard navigation of a Blockly workspace: LineCursor and the
      default shortcut items

    A shallow embedding of [core/keyboard_nav/line_cursor.ts] (the class
    [LineCursor]) and of the copy/cut admission checks of the shortcut
    items, followed by the properties the specification states about
    them.

    Conventions of the embedding.
    - JavaScript objects have identity; a block, connection, input,
      field or comment is an identifier and [Doc] is the store that
      gives each identifier its fields.  [===] on nodes is equality of
      [Node] values.
    - [null]/[undefined] are [None].
    - A loop or recursion of the source that is not structurally bounded
      takes a [fuel] argument and answers [OutOfFuel] when it is used up;
      "the call returns" is "some fuel gives [Ret]".
    - Fields that the cursor mutates ([potentialNodes],
      [navigationLoops]) and the focused node of the focus manager form
      the [State] that is threaded through the operations. *)

From stdpp Require Import base decidable option list countable strings gmap.

Set Default Proof Using "Type".

(** ** Results of bounded evaluation *)

Inductive res (A : Type) : Type :=
| Ret (a : A)
| OutOfFuel.
Arguments Ret {A} a.
Arguments OutOfFuel {A}.

#[global] Instance res_ret : MRet res := fun _ a => Ret a.
#[global] Instance res_bind : MBind res := fun _ _ f m =>
  match m with
  | Ret a => f a
  | OutOfFuel => OutOfFuel
  end.

(** [returns m] : the bounded evaluation [m] produced a value. *)
Definition returns {A} (m : res A) : Prop := exists a, m = Ret a.

(** ** Nodes of the navigation graph *)

Definition BlockId := nat.
Definition ConnId := nat.
Definition InputId := nat.
Definition FieldId := nat.
Definition CommentId := nat.

(** [IFocusableNode]: the classes the cursor tells apart with
    [instanceof], plus the workspace itself. *)
Inductive Node : Type :=
| NBlock (b : BlockId)          (* BlockSvg *)
| NComment (c : CommentId)      (* RenderedWorkspaceComment *)
| NConnection (c : ConnId)      (* RenderedConnection *)
| NField (f : FieldId)          (* Field *)
| NWorkspace.                   (* WorkspaceSvg *)

#[global] Instance Node_eq_dec : EqDecision Node.
Proof. solve_decision. Defined.

Definition Node_to_sum (n : Node) : nat + nat + nat + nat + unit :=
  match n with
  | NBlock b => inl (inl (inl (inl b)))
  | NComment c => inl (inl (inl (inr c)))
  | NConnection c => inl (inl (inr c))
  | NField f => inl (inr f)
  | NWorkspace => inr tt
  end.

Definition Node_of_sum (x : nat + nat + nat + nat + unit) : Node :=
  match x with
  | inl (inl (inl (inl b))) => NBlock b
  | inl (inl (inl (inr c))) => NComment c
  | inl (inl (inr c)) => NConnection c
  | inl (inr f) => NField f
  | inr _ => NWorkspace
  end.

#[global] Instance Node_countable : Countable Node.
Proof. by apply (inj_countable' Node_to_sum Node_of_sum); intros []. Defined.

(** [ConnectionType] of [core/connection_type.ts]. *)
Inductive ConnectionType : Type :=
| INPUT_VALUE
| OUTPUT_VALUE
| NEXT_STATEMENT
| PREVIOUS_STATEMENT.

#[global] Instance ConnectionType_eq_dec : EqDecision ConnectionType.
Proof. solve_decision. Defined.

(** ** The document store

    The classes [BlockSvg], [RenderedConnection] and [Input] are not part
    of the files embedded here; every member the cursor reads is a field
    of the record, named as in the source, and nothing is assumed about
    how the members relate to each other. *)

Module BlockSvg.
Record t : Type := mk {
  outputConnection : option ConnId;
  previousConnection : option ConnId;
  getNextBlock : option BlockId;
  getParent : option BlockId;
  getInputsInline : bool;
  statementInputCount : nat;
  inputList : list InputId;
  disposed : bool;
  getNestingLevel : nat
}.
End BlockSvg.

Module RenderedConnection.
Record t : Type := mk {
  type : ConnectionType;
  getSourceBlock : BlockId;
  targetConnection : option ConnId;
  targetBlock : option BlockId;
  getParentInput : option InputId
}.
End RenderedConnection.

Module Input.
Record t : Type := mk {
  getSourceBlock : BlockId
}.
End Input.

Module Field.
Record t : Type := mk {
  getSourceBlock : BlockId
}.
End Field.

Record Doc : Type := mkDoc {
  block : BlockId -> BlockSvg.t;
  connection : ConnId -> RenderedConnection.t;
  input : InputId -> Input.t;
  field : FieldId -> Field.t
}.

(** ** The navigator

    [workspace.getNavigator()] is a collaborator of the cursor.  Its four
    queries are the fields of [Navigator.t].  The navigator may consult
    the cursor's loop flag (that is why [getNextNode] installs its [loop]
    argument in the cursor before traversing), so the workspace hands out
    a navigator per value of the flag. *)

Module Navigator.
Record t : Type := mk {
  getFirstChild : Node -> option Node;
  getNextSibling : Node -> option Node;
  getPreviousSibling : Node -> option Node;
  getParent : Node -> option Node
}.
End Navigator.

(** [NavigationDirection]. *)
Inductive NavigationDirection : Type :=
| NEXT
| PREVIOUS
| IN
| OUT.

(** ** State of the cursor and of the focus manager *)

Record State : Type := mkState {
  focusedNode : option Node;            (* getFocusManager().getFocusedNode() *)
  potentialNodes : option (list Node);  (* LineCursor.potentialNodes *)
  navigationLoops : bool;               (* LineCursor.navigationLoops *)
  beeps : list Z                        (* frequencies sent to the audio manager *)
}.

(** A validation function is a closure over the cursor: it reads the
    state in force when it is called. *)
Definition Validator : Type := State -> nat -> option Node -> res bool.

(** ** LineCursor *)

Section LineCursor.

(** The document the workspace holds and the navigator it hands out. *)
Variable d : Doc.
Variable getNavigator : bool -> Navigator.t.

(** Modelled from the spec: [Marker.getSourceBlockFromNode] is inherited
    from [Marker], which is not among the embedded files; the spec calls
    its result the candidate's "owning block (if any)": a block owns
    itself, a connection or a field is owned by its source block, a
    comment and the workspace have no owner. *)
Definition getSourceBlockFromNode (node : option Node) : option BlockId :=
  match node with
  | Some (NBlock b) => Some b
  | Some (NConnection c) => Some (RenderedConnection.getSourceBlock (connection d c))
  | Some (NField f) => Some (Field.getSourceBlock (field d f))
  | Some (NComment _) | Some NWorkspace | None => None
  end.

Definition getCurNode (s : State) : option Node := focusedNode s.

(** [Marker.getSourceBlock]: the owning block of the current node. *)
Definition getSourceBlock (s : State) : option BlockId :=
  getSourceBlockFromNode (getCurNode s).

(** Modelled from the spec: [FocusManager.focusNode] belongs to the focus
    manager, which is not among the embedded files; the spec requires
    that it "synchronously update what getFocusedNode subsequently
    returns". *)
Definition focusNode (newNode : Node) (s : State) : State :=
  mkState (Some newNode) (potentialNodes s) (navigationLoops s) (beeps s).

Definition setCurNode (newNode : Node) (s : State) : State :=
  let oldBlock := getSourceBlock s in
  let newBlock := getSourceBlockFromNode (Some newNode) in
  let s1 :=
    match oldBlock, newBlock with
    | Some ob, Some nb =>
        let oldLevel := BlockSvg.getNestingLevel (block d ob) in
        let newLevel := BlockSvg.getNestingLevel (block d nb) in
        if decide (oldLevel <> newLevel)
        then mkState (focusedNode s) (potentialNodes s) (navigationLoops s)
                     (beeps s ++ [(400 + Z.of_nat newLevel * 40)%Z])
        else s
    | _, _ => s
    end in
  focusNode newNode s1.

Definition setNavigationLoops (loops : bool) (s : State) : State :=
  mkState (focusedNode s) (potentialNodes s) loops (beeps s).

Definition getNavigationLoops (s : State) : bool := navigationLoops s.

Definition getFirstNode (s : State) : option Node :=
  Navigator.getFirstChild (getNavigator (getNavigationLoops s)) NWorkspace.

(** *** Forward traversal *)

(** The [while (target && !newNode)] loop of [getNextNodeImpl]: climb the
    parents of [target] until one of them has a next sibling. *)
Fixpoint climbToNextSibling (fuel : nat) (N : Navigator.t) (target : Node)
    (newNode : option Node) : res (option Node) :=
  match newNode with
  | Some _ => Ret newNode
  | None =>
      match fuel with
      | 0 => OutOfFuel
      | S fuel' =>
          match Navigator.getParent N target with
          | None => Ret None
          | Some parent =>
              climbToNextSibling fuel' N parent (Navigator.getNextSibling N parent)
          end
      end
  end.

(** The candidate [newNode] that [getNextNodeImpl] computes for [node]
    before it consults [isValid]. *)
Definition nextCandidate (fuel : nat) (N : Navigator.t) (node : Node)
    : res (option Node) :=
  let newNode :=
    match Navigator.getFirstChild N node with
    | Some c => Some c
    | None => Navigator.getNextSibling N node
    end in
  climbToNextSibling fuel N node newNode.

Fixpoint getNextNodeImpl (fuel : nat) (s : State) (node : option Node)
    (isValid : Validator) (visitedNodes : gset Node) : res (option Node) :=
  match fuel with
  | 0 => OutOfFuel
  | S fuel' =>
      match node with
      | None => Ret None
      | Some n =>
          if decide (n ∈ visitedNodes) then Ret None
          else
            newNode ← nextCandidate fuel' (getNavigator (getNavigationLoops s)) n;
            valid ← isValid s fuel' newNode;
            if (valid : bool) then Ret newNode
            else
              match newNode with
              | Some _ =>
                  getNextNodeImpl fuel' s newNode isValid ({[n]} ∪ visitedNodes)
              | None => Ret None
              end
      end
  end.

(** *** Backward traversal *)

(** The [for] loop of [getRightMostChild]: follow next siblings from
    [newNode] until there is none or [stopIfFound] is met. *)
Fixpoint lastSiblingBefore (fuel : nat) (N : Navigator.t) (stopIfFound : Node)
    (newNode : Node) (nextNode : option Node) : res Node :=
  match nextNode with
  | None => Ret newNode
  | Some nx =>
      if decide (nx = stopIfFound) then Ret newNode
      else
        match fuel with
        | 0 => OutOfFuel
        | S fuel' =>
            lastSiblingBefore fuel' N stopIfFound nx (Navigator.getNextSibling N nx)
        end
  end.

Fixpoint getRightMostChild (fuel : nat) (N : Navigator.t) (node : option Node)
    (stopIfFound : Node) : res (option Node) :=
  match node with
  | None => Ret None
  | Some n =>
      match Navigator.getFirstChild N n with
      | None => Ret (Some n)
      | Some c =>
          if decide (c = stopIfFound) then Ret (Some n)
          else
            match fuel with
            | 0 => OutOfFuel
            | S fuel' =>
                newNode ← lastSiblingBefore fuel' N stopIfFound c (Some c);
                getRightMostChild fuel' N (Some newNode) stopIfFound
            end
      end
  end.

(** The candidate [newNode] that [getPreviousNodeImpl] computes for
    [node] before it consults [isValid]. *)
Definition previousCandidate (fuel : nat) (N : Navigator.t) (node : Node)
    : res (option Node) :=
  rightMost ← getRightMostChild fuel N (Navigator.getPreviousSibling N node) node;
  match rightMost with
  | Some r => Ret (Some r)
  | None => Ret (Navigator.getParent N node)
  end.

Fixpoint getPreviousNodeImpl (fuel : nat) (s : State) (node : option Node)
    (isValid : Validator) (visitedNodes : gset Node) : res (option Node) :=
  match fuel with
  | 0 => OutOfFuel
  | S fuel' =>
      match node with
      | None => Ret None
      | Some n =>
          if decide (n ∈ visitedNodes) then Ret None
          else
            newNode ← previousCandidate fuel' (getNavigator (getNavigationLoops s)) n;
            valid ← isValid s fuel' newNode;
            if (valid : bool) then Ret newNode
            else
              match newNode with
              | Some _ =>
                  getPreviousNodeImpl fuel' s newNode isValid ({[n]} ∪ visitedNodes)
              | None => Ret None
              end
      end
  end.

(** [() => true]. *)
Definition alwaysTrue : Validator := fun _ _ _ => Ret true.

Definition getPreviousNode (fuel : nat) (node : option Node) (isValid : Validator)
    (loop : bool) (s : State) : res (option Node * State) :=
  let originalLoop := getNavigationLoops s in
  let s1 := setNavigationLoops loop s in
  result ←
    match node with
    | None => Ret None
    | Some n =>
        if negb loop && bool_decide (getFirstNode s1 = Some n) then Ret None
        else getPreviousNodeImpl fuel s1 node isValid ∅
    end;
  Ret (result, setNavigationLoops originalLoop s1).

Definition getLastNode (fuel : nat) (s : State) : res (option Node * State) :=
  let first := getFirstNode s in
  getPreviousNode fuel first alwaysTrue true s.

Definition getNextNode (fuel : nat) (node : option Node) (isValid : Validator)
    (loop : bool) (s : State) : res (option Node * State) :=
  let originalLoop := getNavigationLoops s in
  let s1 := setNavigationLoops loop s in
  '(result, s2) ←
    match node with
    | None => Ret (None, s1)
    | Some n =>
        if loop then
          r ← getNextNodeImpl fuel s1 node isValid ∅; Ret (r, s1)
        else
          '(last, s2) ← getLastNode fuel s1;
          if bool_decide (last = Some n) then Ret (None, s2)
          else r ← getNextNodeImpl fuel s2 node isValid ∅; Ret (r, s2)
    end;
  Ret (result, setNavigationLoops originalLoop s2).

(** *** Validation functions *)

(** The [while (parent)] loop of [getParents]. *)
Fixpoint collectParents (fuel : nat) (parent : option BlockId)
    (parents : gset BlockId) : res (gset BlockId) :=
  match parent with
  | None => Ret parents
  | Some p =>
      match fuel with
      | 0 => OutOfFuel
      | S fuel' =>
          collectParents fuel' (BlockSvg.getParent (block d p)) ({[p]} ∪ parents)
      end
  end.

Definition getParents (fuel : nat) (b : BlockId) : res (gset BlockId) :=
  collectParents fuel (BlockSvg.getParent (block d b)) ∅.

(** [inputList[0] === parentInput], the left side possibly [undefined]
    (empty list) and the right side possibly [null]: only two inputs can
    be identical. *)
Definition isFirstInput (inputList : list InputId) (parentInput : option InputId)
    : bool :=
  match head inputList, parentInput with
  | Some i, Some p => bool_decide (i = p)
  | _, _ => false
  end.

(** [candidate.outputConnection?.targetBlock()]. *)
Definition outputTargetBlock (b : BlockId) : option BlockId :=
  oc ← BlockSvg.outputConnection (block d b);
  RenderedConnection.targetBlock (connection d oc).

(** [candidate.outputConnection?.targetConnection]. *)
Definition outputTargetConnection (b : BlockId) : option ConnId :=
  oc ← BlockSvg.outputConnection (block d b);
  RenderedConnection.targetConnection (connection d oc).

(** The condition of the first [if] of the NEXT/PREVIOUS closure. *)
Definition startsLine (candidate : option Node) : bool :=
  match candidate with
  | Some (NBlock b) =>
      match outputTargetBlock b with
      | Some _ => false
      | None => true
      end
  | Some (NComment _) => true
  | Some (NConnection c) =>
      let conn := connection d c in
      match RenderedConnection.type conn with
      | NEXT_STATEMENT => true
      | INPUT_VALUE =>
          let source := block d (RenderedConnection.getSourceBlock conn) in
          negb (BlockSvg.statementInputCount source =? 0)
          && negb (isFirstInput (BlockSvg.inputList source)
                                (RenderedConnection.getParentInput conn))
      | _ => false
      end
  | _ => false
  end.

(** First PREVIOUS exclusion: the current node is a next connection that
    is not the connection of an input, and the candidate is not its
    block. *)
Definition leavesNextConnection (currentNode candidate : option Node) : bool :=
  match currentNode with
  | Some (NConnection c) =>
      let conn := connection d c in
      bool_decide (RenderedConnection.type conn = NEXT_STATEMENT)
      && negb (bool_decide (is_Some (RenderedConnection.getParentInput conn)))
      && negb (bool_decide
                 (candidate = Some (NBlock (RenderedConnection.getSourceBlock conn))))
  | _ => false
  end.

(** Second PREVIOUS exclusion: the candidate is a value block plugged
    into the first input of a block with statement inputs, or into a
    block without statement inputs. *)
Definition pluggedInSameRow (candidate : option Node) : bool :=
  match candidate with
  | Some (NBlock b) =>
      match outputTargetConnection b with
      | Some tc =>
          match RenderedConnection.getParentInput (connection d tc) with
          | None => true
          | Some parentInput =>
              let source := block d (Input.getSourceBlock (input d parentInput)) in
              (BlockSvg.statementInputCount source =? 0)
              || isFirstInput (BlockSvg.inputList source) (Some parentInput)
          end
      | None => false
      end
  | _ => false
  end.

(** [candidate.outputConnection?.targetBlock()?.getInputsInline()]. *)
Definition parentUsesInlineInputs (b : BlockId) : bool :=
  match outputTargetBlock b with
  | Some p => BlockSvg.getInputsInline (block d p)
  | None => false
  end.

Definition isPrevious (direction : NavigationDirection) : bool :=
  match direction with
  | PREVIOUS => true
  | _ => false
  end.

Definition getValidationFunction (direction : NavigationDirection) : Validator :=
  match direction with
  | IN | OUT => fun _ _ _ => Ret true
  | NEXT | PREVIOUS => fun s fuel candidate =>
      if startsLine candidate then Ret true
      else
        let currentNode := getCurNode s in
        if isPrevious direction && leavesNextConnection currentNode candidate
        then Ret false
        else if isPrevious direction && pluggedInSameRow candidate
        then Ret false
        else
          let currentBlock := getSourceBlockFromNode currentNode in
          match candidate, currentBlock with
          | Some (NBlock cand), Some cur =>
              if parentUsesInlineInputs cand then Ret false
              else
                candidateParents ← getParents fuel cand;
                if bool_decide (Some (NBlock cur) = getCurNode s)
                   && bool_decide (cur ∈ candidateParents)
                then Ret false
                else
                  currentParents ← getParents fuel cur;
                  let sharedParents := currentParents ∩ candidateParents in
                  Ret ((size sharedParents =? 0)
                       || existsb (fun b => negb (BlockSvg.getInputsInline (block d b)))
                                  (elements sharedParents))
          | _, _ => Ret false
          end
  end.

(** *** Moving the cursor *)

Definition next (fuel : nat) (s : State) : res (option Node * State) :=
  match getCurNode s with
  | None => Ret (None, s)
  | Some curNode =>
      '(newNode, s1) ← getNextNode fuel (Some curNode) (getValidationFunction NEXT)
                                   (getNavigationLoops s) s;
      match newNode with
      | Some n => Ret (newNode, setCurNode n s1)
      | None => Ret (newNode, s1)
      end
  end.

(** [LineCursor.in] ([in] is reserved). *)
Definition in_ (fuel : nat) (s : State) : res (option Node * State) :=
  match getCurNode s with
  | None => Ret (None, s)
  | Some curNode =>
      '(newNode, s1) ← getNextNode fuel (Some curNode) (getValidationFunction IN)
                                   (getNavigationLoops s) s;
      match newNode with
      | Some n => Ret (newNode, setCurNode n s1)
      | None => Ret (newNode, s1)
      end
  end.

Definition prev (fuel : nat) (s : State) : res (option Node * State) :=
  match getCurNode s with
  | None => Ret (None, s)
  | Some curNode =>
      '(newNode, s1) ← getPreviousNode fuel (Some curNode)
                                       (getValidationFunction PREVIOUS)
                                       (getNavigationLoops s) s;
      match newNode with
      | Some n => Ret (newNode, setCurNode n s1)
      | None => Ret (newNode, s1)
      end
  end.

Definition out (fuel : nat) (s : State) : res (option Node * State) :=
  match getCurNode s with
  | None => Ret (None, s)
  | Some curNode =>
      '(newNode, s1) ← getPreviousNode fuel (Some curNode)
                                       (getValidationFunction OUT)
                                       (getNavigationLoops s) s;
      match newNode with
      | Some n => Ret (newNode, setCurNode n s1)
      | None => Ret (newNode, s1)
      end
  end.

Definition atEndOfLine (fuel : nat) (s : State) : res (bool * State) :=
  match getCurNode s with
  | None => Ret (false, s)
  | Some curNode =>
      '(inNode, s1) ← getNextNode fuel (Some curNode) (getValidationFunction IN)
                                  (getNavigationLoops s) s;
      '(nextNode, s2) ← getNextNode fuel (Some curNode) (getValidationFunction NEXT)
                                    (getNavigationLoops s1) s1;
      Ret (bool_decide (inNode = nextNode), s2)
  end.

(** The traversal that each move delegates to. *)
Definition delegate (direction : NavigationDirection) (fuel : nat) (c : Node)
    (s : State) : res (option Node * State) :=
  match direction with
  | NEXT | IN =>
      getNextNode fuel (Some c) (getValidationFunction direction)
                  (getNavigationLoops s) s
  | PREVIOUS | OUT =>
      getPreviousNode fuel (Some c) (getValidationFunction direction)
                      (getNavigationLoops s) s
  end.

(** The four moves, by direction. *)
Definition move (direction : NavigationDirection) : nat -> State -> res (option Node * State) :=
  match direction with
  | NEXT => next
  | PREVIOUS => prev
  | IN => in_
  | OUT => out
  end.

(** *** Recovering the position after a deletion *)

(** [a ?? b]. *)
Definition nullish {A} (a b : option A) : option A :=
  match a with
  | Some _ => a
  | None => b
  end.

(** [x ? [x] : []], and what [if (x) nodes.push(x)] appends. *)
Definition pushed {A} (x : option A) : list A :=
  match x with
  | Some a => [a]
  | None => []
  end.

Definition preDelete (deletedBlock : BlockId) (s : State) : State :=
  let curNode := getCurNode s in
  let blk := block d deletedBlock in
  let nodes := pushed curNode in
  let parentConnection :=
    nullish
      (pc ← BlockSvg.previousConnection blk;
       RenderedConnection.targetConnection (connection d pc))
      (oc ← BlockSvg.outputConnection blk;
       RenderedConnection.targetConnection (connection d oc)) in
  let nodes := nodes ++ pushed (NConnection <$> parentConnection) in
  let nextBlock := BlockSvg.getNextBlock blk in
  let nodes := nodes ++ pushed (NBlock <$> nextBlock) in
  let parentBlock := BlockSvg.getParent blk in
  let nodes := nodes ++ pushed (NBlock <$> parentBlock) in
  let nodes := nodes ++ [NWorkspace] in
  mkState (focusedNode s) (Some nodes) (navigationLoops s) (beeps s).

(** How a call ends: normally, or with [throw new Error(msg)]. *)
Inductive Outcome : Type :=
| Normal
| Throw (msg : string).

(** [!this.getSourceBlockFromNode(node)?.disposed]. *)
Definition notDisposed (node : Node) : bool :=
  match getSourceBlockFromNode (Some node) with
  | Some b => negb (BlockSvg.disposed (block d b))
  | None => true
  end.

(** The [for (const node of nodes)] loop of [postDelete] with the [throw]
    that follows it. *)
Fixpoint moveToFirstValid (nodes : list Node) (s : State) : Outcome * State :=
  match nodes with
  | [] => (Throw "no valid nodes in this.potentialNodes", s)
  | node :: rest =>
      if notDisposed node then (Normal, setCurNode node s)
      else moveToFirstValid rest s
  end.

Definition postDelete (s : State) : Outcome * State :=
  let nodes := potentialNodes s in
  let s1 := mkState (focusedNode s) None (navigationLoops s) (beeps s) in
  match nodes with
  | None => (Throw "must call preDelete first", s1)
  | Some nodes => moveToFirstValid nodes s1
  end.

(** *** Vocabulary for the termination of the traversals *)

(** [isValid] keeps its answer when it is given more fuel. *)
Definition fuelMonotone (isValid : Validator) : Prop :=
  forall s fuel fuel' candidate b,
    fuel <= fuel' ->
    isValid s fuel candidate = Ret b -> isValid s fuel' candidate = Ret b.

(** Inside [nodes], one step of a traversal returns with [k] units of
    fuel: [step] yields a candidate, the candidate (if any) is again in
    [nodes], and [isValid] answers on it. *)
Definition stepsReturn (step : nat -> Navigator.t -> Node -> res (option Node))
    (isValid : Validator) (s : State) (nodes : gset Node) (k : nat) : Prop :=
  forall n, n ∈ nodes ->
    exists c b,
      step k (getNavigator (getNavigationLoops s)) n = Ret c
      /\ isValid s k c = Ret b
      /\ (forall m, c = Some m -> m ∈ nodes).

End LineCursor.

(** ** Shortcut items: the admission checks of Copy and Cut *)

Module ShortcutItems.

(** What [instanceof] tells [isCopyable] about the focused node. *)
Inductive NodeClass : Type :=
| IsBlockSvg
| IsRenderedWorkspaceComment
| IsOtherClass.

(** A focused node as the admission checks see it.  The type guards
    [isICopyable], [isIDeletable] and [isDraggable] live in the interface
    files, which are not embedded; their verdict on the node is a field
    of the node, and so is the answer of each method the checks call. *)
Record FocusableNode : Type := mkFocusable {
  isICopyable : bool;             (* isICopyable(focused) *)
  isIDeletable : bool;            (* isIDeletable(focused) *)
  isDraggable : bool;             (* isDraggable(focused) *)
  isCopyableMethod : option bool; (* focused.isCopyable, when defined, and its answer *)
  nodeClass : NodeClass;
  isOwnDeletable : bool;          (* focused.isOwnDeletable() *)
  isOwnMovable : bool;            (* focused.isOwnMovable() *)
  isDeletable : bool;             (* focused.isDeletable() *)
  isMovable : bool                (* focused.isMovable() *)
}.

Record Workspace : Type := mkWorkspace {
  isReadOnly : bool;
  isDragging : bool
}.

Record Scope : Type := mkScope {
  focusedNode : option FocusableNode
}.

Definition isCopyable (focused : FocusableNode) : bool :=
  if negb (isICopyable focused) || negb (isIDeletable focused)
     || negb (isDraggable focused)
  then false
  else
    match isCopyableMethod focused with
    | Some answer => answer
    | None =>
        match nodeClass focused with
        | IsBlockSvg | IsRenderedWorkspaceComment =>
            isOwnDeletable focused && isOwnMovable focused
        | IsOtherClass => isDeletable focused && isMovable focused
        end
    end.

Definition isCuttable (focused : FocusableNode) : bool :=
  isCopyable focused && isIDeletable focused && isDeletable focused.

(** [preconditionFn] of the shortcut registered by [registerCut];
    [ephemeralFocusTaken] is the answer of
    [getFocusManager().ephemeralFocusTaken()]. *)
Definition cutPreconditionFn (ephemeralFocusTaken : bool) (workspace : Workspace)
    (scope : Scope) : bool :=
  match focusedNode scope with
  | None => false
  | Some focused =>
      negb (isReadOnly workspace)
      && negb (isDragging workspace)
      && negb ephemeralFocusTaken
      && isCuttable focused
  end.

(** The deletable check of [isCuttable] and of the Delete shortcut:
    [isIDeletable(focused) && focused.isDeletable()]. *)
Definition passesDeletableCheck (focused : FocusableNode) : bool :=
  isIDeletable focused && isDeletable focused.

End ShortcutItems.

(** ** Example documents, navigators and states *)

Module Examples.

Definition plainBlock : BlockSvg.t :=
  BlockSvg.mk None None None None false 0 [] false 0.

Definition looseConnection : RenderedConnection.t :=
  RenderedConnection.mk PREVIOUS_STATEMENT 0 None None None.

(** A stack A → B → C: blocks 1, 2, 3; connection 10 is A's next
    connection, 20 and 21 are B's previous and next connections, 30 is
    C's previous connection. *)
Definition blockA : BlockId := 1.
Definition blockB : BlockId := 2.
Definition blockC : BlockId := 3.

Definition stackBefore : Doc :=
  mkDoc
    (fun b =>
       match b with
       | 1 => BlockSvg.mk None None (Some blockB) None false 0 [] false 0
       | 2 => BlockSvg.mk None (Some 20) (Some blockC) (Some blockA) false 0 [] false 0
       | 3 => BlockSvg.mk None (Some 30) None (Some blockB) false 0 [] false 0
       | _ => plainBlock
       end)
    (fun c =>
       match c with
       | 10 => RenderedConnection.mk NEXT_STATEMENT blockA (Some 20) (Some blockB) None
       | 20 => RenderedConnection.mk PREVIOUS_STATEMENT blockB (Some 10) (Some blockA) None
       | 21 => RenderedConnection.mk NEXT_STATEMENT blockB (Some 30) (Some blockC) None
       | 30 => RenderedConnection.mk PREVIOUS_STATEMENT blockC (Some 21) (Some blockB) None
       | _ => looseConnection
       end)
    (fun _ => Input.mk 0)
    (fun _ => Field.mk 0).

(** The same document once B is disposed and the stack is healed. *)
Definition stackAfter : Doc :=
  mkDoc
    (fun b =>
       match b with
       | 1 => BlockSvg.mk None None (Some blockC) None false 0 [] false 0
       | 2 => BlockSvg.mk None (Some 20) None None false 0 [] true 0
       | 3 => BlockSvg.mk None (Some 30) None (Some blockA) false 0 [] false 0
       | _ => plainBlock
       end)
    (fun c =>
       match c with
       | 10 => RenderedConnection.mk NEXT_STATEMENT blockA (Some 30) (Some blockC) None
       | 20 => RenderedConnection.mk PREVIOUS_STATEMENT blockB None None None
       | 21 => RenderedConnection.mk NEXT_STATEMENT blockB None None None
       | 30 => RenderedConnection.mk PREVIOUS_STATEMENT blockC (Some 10) (Some blockA) None
       | _ => looseConnection
       end)
    (fun _ => Input.mk 0)
    (fun _ => Field.mk 0).

Definition cursorOn (n : Node) : State := mkState (Some n) None true [].

(** A document in which every block and connection is unattached. *)
Definition plainDoc : Doc :=
  mkDoc (fun _ => plainBlock) (fun _ => looseConnection)
        (fun _ => Input.mk 0) (fun _ => Field.mk 0).

(** A block (1) with a statement input: inputs 5 and 6, connection 11 is
    the input-value connection of input 6, connection 12 that of input 5.
    Block 2 is plugged into connection 12 through its output connection
    40; block 1 renders its inputs inline. *)
Definition inlineParent : Doc :=
  mkDoc
    (fun b =>
       match b with
       | 1 => BlockSvg.mk None None None None true 1 [5; 6] false 0
       | 2 => BlockSvg.mk (Some 40) None None (Some 1) false 0 [] false 1
       | _ => plainBlock
       end)
    (fun c =>
       match c with
       | 11 => RenderedConnection.mk INPUT_VALUE 1 None None (Some 6)
       | 12 => RenderedConnection.mk INPUT_VALUE 1 (Some 40) (Some 2) (Some 5)
       | 40 => RenderedConnection.mk OUTPUT_VALUE 2 (Some 12) (Some 1) None
       | _ => looseConnection
       end)
    (fun _ => Input.mk 1)
    (fun _ => Field.mk 0).

(** A workspace whose only top-level nodes are two comments. *)
Definition twoComments : Navigator.t :=
  Navigator.mk
    (fun n => match n with NWorkspace => Some (NComment 0) | _ => None end)
    (fun n => match n with NComment 0 => Some (NComment 1) | _ => None end)
    (fun n => match n with NComment 1 => Some (NComment 0) | _ => None end)
    (fun n => match n with NComment _ => Some NWorkspace | _ => None end).

(** A malformed graph: every node is its own parent and has neither
    children nor siblings. *)
Definition selfParent : Navigator.t :=
  Navigator.mk (fun _ => None) (fun _ => None) (fun _ => None) (fun n => Some n).

(** A malformed graph: field 1 precedes field 0, its first child is
    field 2, and field 2 is its own next sibling. *)
Definition selfSibling : Navigator.t :=
  Navigator.mk
    (fun n => match n with NField 1 => Some (NField 2) | _ => None end)
    (fun n => match n with NField 2 => Some (NField 2) | _ => None end)
    (fun n => match n with NField 0 => Some (NField 1) | _ => None end)
    (fun _ => None).

(** A graph with a structural cycle: fields 0 and 1 are each other's
    next and previous sibling. *)
Definition siblingCycle : Navigator.t :=
  Navigator.mk
    (fun _ => None)
    (fun n => match n with
              | NField 0 => Some (NField 1)
              | NField 1 => Some (NField 0)
              | _ => None
              end)
    (fun n => match n with
              | NField 0 => Some (NField 1)
              | NField 1 => Some (NField 0)
              | _ => None
              end)
    (fun _ => None).

Definition cycleNodes : gset Node := {[ NField 0; NField 1 ]}.

(** A block that is copyable but reports itself not deletable. *)
Definition lockedBlock : ShortcutItems.FocusableNode :=
  ShortcutItems.mkFocusable true true true (Some true) ShortcutItems.IsBlockSvg
                            true true false true.

End Examples.

(** ** The chain of parents of a block *)

(** [parentAfter d k b]: the block reached from [b] by [k] calls of
    [getParent()], if the chain is that long. *)
Fixpoint parentAfter (d : Doc) (k : nat) (b : BlockId) : option BlockId :=
  match k with
  | 0 => Some b
  | S k' => p ← BlockSvg.getParent (block d b); parentAfter d k' p
  end.

(** ** Shortcut items: the other default shortcuts *)

Module DefaultShortcuts.
Import ShortcutItems.

(** The members of [WorkspaceSvg] that Copy, Paste and the jump shortcuts
    read besides [isReadOnly()] and [isDragging()].  Of a target
    workspace only those two are read. *)
Record WorkspaceSvg : Type := mkWorkspaceSvg {
  asWorkspace : Workspace;
  isFlyout : bool;
  targetWorkspace : option Workspace;
  rendered : bool
}.

(** What the clipboard answers to [getLastCopiedWorkspace()] and whether
    [getLastCopiedData()] is non-null. *)
Record Clipboard : Type := mkClipboard {
  getLastCopiedWorkspace : option WorkspaceSvg;
  hasLastCopiedData : bool
}.

(** What a callback does to its collaborators, in order. *)
Inductive Effect : Type :=
| PreventDefault                      (* e.preventDefault() *)
| CheckAndDelete                      (* focused.checkAndDelete() *)
| Dispose                             (* focused.dispose() *)
| SetGroup (group : bool)             (* eventUtils.setGroup(group) *)
| ClipboardCopy (withCoords : bool).  (* clipboard.copy(focused, copyCoords) *)

Definition escapePreconditionFn (workspace : Workspace) : bool :=
  negb (isReadOnly workspace).

Definition deletePreconditionFn (ephemeralFocusTaken : bool) (workspace : Workspace)
    (scope : Scope) : bool :=
  negb (isReadOnly workspace)
  && match focusedNode scope with
     | None => false
     | Some focused =>
         isIDeletable focused
         && isDeletable focused
         && negb (isDragging workspace)
         && negb ephemeralFocusTaken
     end.

(** [callback] of the Delete shortcut: its answer and what it did.  A
    type guard answers false on a missing node. *)
Definition deleteCallback (scope : Scope) : bool * list Effect :=
  let effects := [PreventDefault] in
  match focusedNode scope with
  | Some focused =>
      match nodeClass focused with
      | IsBlockSvg => (true, effects ++ [CheckAndDelete])
      | _ =>
          if isIDeletable focused && isDeletable focused
          then (true, effects ++ [SetGroup true; Dispose; SetGroup false])
          else (true, effects)
      end
  | None => (true, effects)
  end.

(** [workspace.isFlyout ? workspace.targetWorkspace : workspace]. *)
Definition targetOf (workspace : WorkspaceSvg) : option Workspace :=
  if isFlyout workspace then targetWorkspace workspace
  else Some (asWorkspace workspace).

Definition copyPreconditionFn (ephemeralFocusTaken : bool) (workspace : WorkspaceSvg)
    (scope : Scope) : bool :=
  match focusedNode scope, targetOf workspace with
  | Some focused, Some target =>
      negb (isDragging target) && negb ephemeralFocusTaken && isCopyable focused
  | _, _ => false
  end.

(** [callback] of the Cut shortcut; [copied] tells whether
    [clipboard.copy] returned copy data. *)
Definition cutCallback (copied : bool) (scope : Scope) : bool * list Effect :=
  match focusedNode scope with
  | None => (false, [])
  | Some focused =>
      if negb (isCuttable focused) || negb (isICopyable focused) then (false, [])
      else
        let effects := [ClipboardCopy (isDraggable focused)] in
        let effects :=
          match nodeClass focused with
          | IsBlockSvg => effects ++ [CheckAndDelete]
          | _ => if isIDeletable focused then effects ++ [Dispose] else effects
          end in
        (copied, effects)
  end.

Definition pastePreconditionFn (ephemeralFocusTaken : bool) (clipboard : Clipboard)
    : bool :=
  match getLastCopiedWorkspace clipboard with
  | None => false
  | Some workspace =>
      if negb (rendered workspace) then false
      else
        hasLastCopiedData clipboard
        && match targetOf workspace with
           | None => false
           | Some target =>
               negb (isReadOnly target)
               && negb (isDragging target)
               && negb ephemeralFocusTaken
           end
  end.

Definition undoPreconditionFn (ephemeralFocusTaken : bool) (workspace : Workspace)
    : bool :=
  negb (isReadOnly workspace)
  && negb (isDragging workspace)
  && negb ephemeralFocusTaken.

Definition redoPreconditionFn (ephemeralFocusTaken : bool) (workspace : Workspace)
    : bool :=
  negb (isDragging workspace)
  && negb (isReadOnly workspace)
  && negb ephemeralFocusTaken.

(** [focusedNodeHasBlockParent]; the focused node and the cursor's source
    block are read from the cursor state [s] over the document [d]. *)
Definition focusedNodeHasBlockParent (d : Doc) (ephemeralFocusTaken : bool)
    (workspace : Workspace) (s : State) : bool :=
  negb (isDragging workspace)
  && negb ephemeralFocusTaken
  && bool_decide (is_Some (getCurNode s))
  && bool_decide (is_Some (getSourceBlock d s)).

(** [preconditionFn] of the four shortcuts that jump inside a stack. *)
Definition jumpInStackPreconditionFn (d : Doc) (ephemeralFocusTaken : bool)
    (workspace : WorkspaceSvg) (s : State) : bool :=
  negb (isFlyout workspace)
  && focusedNodeHasBlockParent d ephemeralFocusTaken (asWorkspace workspace) s.

(** [preconditionFn] of the two shortcuts that jump to the first and to
    the last block of the workspace. *)
Definition jumpInWorkspacePreconditionFn (ephemeralFocusTaken : bool)
    (workspace : Workspace) : bool :=
  negb (isDragging workspace) && negb ephemeralFocusTaken.

(** [callback] of the shortcut registered by [registerJumpBlockStart]. *)
Definition jumpBlockStartCallback (d : Doc) (s : State) : bool * State :=
  match getSourceBlock d s with
  | None => (false, s)
  | Some selectedBlock => (true, focusNode (NBlock selectedBlock) s)
  end.

End DefaultShortcuts.

(** ** WorkspaceAudio *)

Module WorkspaceAudio.

Definition SOUND_LIMIT : Z := 100.

(** [AudioContext.state]. *)
Inductive ContextState : Type :=
| Suspended
| Running
| Closed.

Definition AudioBuffer := nat.

Section Audio.

(** Volumes are JavaScript numbers; the code only compares one with
    zero and hands it on as a gain. *)
Variable Volume : Type.
Variable isZero : Volume -> bool.   (* opt_volume === 0 *)
Variable fullVolume : Volume.       (* 1 *)

(** One audio manager.  [lastSound] is the time of [new Date()] in
    milliseconds; [context] is [None] when there is no [AudioContext],
    else the state the context reports when the manager is called.  The
    state belongs to the context, not to the manager: no method assigns
    it, and it changes on its own once the promise of [resume()] or of
    [close()] settles (see [contextReports]). *)
Record t : Type := mk {
  sounds : gmap string AudioBuffer;
  lastSound : option Z;
  muted : bool;
  context : option ContextState
}.

(** What a call asks of the audio context.  [source.start()] after
    [await this.context.resume()] is a continuation: it runs only once
    the promise of [resume()] resolves, so a call on a suspended context
    yields [ResumeThenStart] and not [Start]. *)
Inductive AudioEvent : Type :=
| Start (buffer : AudioBuffer) (gain : Volume)
    (* source.start() is called *)
| ResumeThenStart (buffer : AudioBuffer) (gain : Volume)
    (* context.resume() is called; source.start() follows if and when
       its promise resolves *)
| Close.
    (* context.close() is called *)

(** The manager as it is once its context, if it has one, reports the
    state [c]: what the environment does between two calls. *)
Definition contextReports (c : ContextState) (this : t) : t :=
  mk (sounds this) (lastSound this) (muted this)
     match context this with
     | Some _ => Some c
     | None => None
     end.

(** [dispose] clears the sounds and asks the context to close; the
    context reports [Closed] only once that promise settles. *)
Definition dispose (this : t) : t * list AudioEvent :=
  (mk ∅ (lastSound this) (muted this) (context this),
   match context this with
   | Some _ => [Close]
   | None => []
   end).

(** [load]; [decoded] is the buffer that fetching and decoding
    [filenames[0]] hands to the callback, if it does. *)
Definition load (this : t) (filenames : list string) (name : string)
    (decoded : option AudioBuffer) : t :=
  match filenames with
  | [] => this
  | _ :: _ =>
      match context this, decoded with
      | Some _, Some audioBuffer =>
          mk (<[name := audioBuffer]> (sounds this)) (lastSound this) (muted this)
             (context this)
      | _, _ => this
      end
  end.

(** [play] on the manager [this], whose parent workspace, parent's parent
    workspace, ... have the managers [ancestors] (the parent workspace of
    a manager is fixed by its constructor, so the chain is a list).
    [now] is what [new Date().getTime()] yields; at most one manager of
    the chain reads it.  [play] is [async]: everything up to
    [lastSound = now] runs at once; on a suspended context the rest,
    [source.start()] included, waits for the promise of
    [context.resume()].  The answer is the chain after the call and what
    the call asked of the audio contexts. *)
Fixpoint play (this : t) (ancestors : list t) (name : string)
    (opt_volume : option Volume) (now : Z) : t * list t * list AudioEvent :=
  if muted this
     || match opt_volume with Some v => isZero v | None => false end
     || negb (bool_decide (is_Some (context this)))
  then (this, ancestors, [])
  else
    match sounds this !! name with
    | Some sound =>
        match lastSound this with
        | Some last =>
            if (now - last <? SOUND_LIMIT)%Z then (this, ancestors, [])
            else
              (mk (sounds this) (Some now) (muted this) (context this), ancestors,
               match context this with
               | Some Suspended =>
                   [ResumeThenStart sound (default fullVolume opt_volume)]
               | _ => [Start sound (default fullVolume opt_volume)]
               end)
        | None =>
            (mk (sounds this) (Some now) (muted this) (context this), ancestors,
             match context this with
             | Some Suspended =>
                 [ResumeThenStart sound (default fullVolume opt_volume)]
             | _ => [Start sound (default fullVolume opt_volume)]
             end)
        end
    | None =>
        match ancestors with
        | [] => (this, ancestors, [])
        | parent :: rest =>
            let '(parent', rest', events) := play parent rest name opt_volume now in
            (this, parent' :: rest', events)
        end
    end.

Definition setMuted (muted' : bool) (this : t) : t :=
  mk (sounds this) (lastSound this) muted' (context this).

Definition getMuted (this : t) : bool := muted this.

(** [play] does not touch these members of a manager. *)
Definition sameSettings (a b : t) : Prop :=
  sounds a = sounds b /\ muted a = muted b.

(** The manager hears a request: it is not muted, the volume is not
    zero, and it has a context. *)
Definition hears (this : t) (opt_volume : option Volume) : Prop :=
  muted this = false
  /\ (forall v, opt_volume = Some v -> isZero v = false)
  /\ is_Some (context this).

End Audio.

Arguments play {Volume} isZero fullVolume this ancestors name opt_volume now.
Arguments hears {Volume} isZero this opt_volume.
Arguments dispose {Volume} this.
Arguments Start {Volume} buffer gain.
Arguments ResumeThenStart {Volume} buffer gain.
Arguments Close {Volume}.

End WorkspaceAudio.

(** ** More example documents, nodes and audio managers *)

Module MoreExamples.

(** Block 1 has external inputs and holds the value block 2 (output
    connection 40 plugged into connection 12 of input 5); block 3 is
    another top-level block. *)
Definition externalParent : Doc :=
  mkDoc
    (fun b =>
       match b with
       | 1 => BlockSvg.mk None None None None false 0 [5] false 0
       | 2 => BlockSvg.mk (Some 40) None None (Some 1) false 0 [] false 1
       | _ => Examples.plainBlock
       end)
    (fun c =>
       match c with
       | 12 => RenderedConnection.mk INPUT_VALUE 1 (Some 40) (Some 2) (Some 5)
       | 40 => RenderedConnection.mk OUTPUT_VALUE 2 (Some 12) (Some 1) None
       | _ => Examples.looseConnection
       end)
    (fun _ => Input.mk 1)
    (fun _ => Field.mk 0).

(** The two comments of [Examples.twoComments] as a navigator that wraps
    around shows them: each is the other's next and previous sibling. *)
Definition commentRing : Navigator.t :=
  Navigator.mk
    (fun n => match n with NWorkspace => Some (NComment 0) | _ => None end)
    (fun n => match n with
              | NComment 0 => Some (NComment 1)
              | NComment 1 => Some (NComment 0)
              | _ => None
              end)
    (fun n => match n with
              | NComment 0 => Some (NComment 1)
              | NComment 1 => Some (NComment 0)
              | _ => None
              end)
    (fun n => match n with NComment _ => Some NWorkspace | _ => None end).

(** A workspace whose navigator wraps around exactly when the cursor's
    loop flag is set. *)
Definition loopAware (loops : bool) : Navigator.t :=
  if loops then commentRing else Examples.twoComments.

(** [Examples.inlineParent] once the value block 2 is disposed: its
    output connection 40 and the input connection 12 are unplugged. *)
Definition inlineParentAfter : Doc :=
  mkDoc
    (fun b =>
       match b with
       | 1 => BlockSvg.mk None None None None true 1 [5; 6] false 0
       | 2 => BlockSvg.mk (Some 40) None None None false 0 [] true 1
       | _ => Examples.plainBlock
       end)
    (fun c =>
       match c with
       | 11 => RenderedConnection.mk INPUT_VALUE 1 None None (Some 6)
       | 12 => RenderedConnection.mk INPUT_VALUE 1 None None (Some 5)
       | 40 => RenderedConnection.mk OUTPUT_VALUE 2 None None None
       | _ => Examples.looseConnection
       end)
    (fun _ => Input.mk 1)
    (fun _ => Field.mk 0).

(** A block that can be copied, moved and deleted. *)
Definition freeBlock : ShortcutItems.FocusableNode :=
  ShortcutItems.mkFocusable true true true (Some true) ShortcutItems.IsBlockSvg
                            true true true true.

Definition editable : ShortcutItems.Workspace := ShortcutItems.mkWorkspace false false.
Definition readOnly : ShortcutItems.Workspace := ShortcutItems.mkWorkspace true false.
Definition dragging : ShortcutItems.Workspace := ShortcutItems.mkWorkspace false true.

Definition mainWorkspace (flags : ShortcutItems.Workspace)
    : DefaultShortcuts.WorkspaceSvg :=
  DefaultShortcuts.mkWorkspaceSvg flags false None true.

(** Volumes in the examples are integers; 0 is silence and 1 is full
    volume. *)
Definition isSilent (v : Z) : bool := (v =? 0)%Z.

(** A running manager that knows the sounds "click" and "delete". *)
Definition speaker : WorkspaceAudio.t :=
  WorkspaceAudio.mk (<["click"%string := 7]> (<["delete"%string := 8]> ∅)) None false
                    (Some WorkspaceAudio.Running).

(** A manager without sounds. *)
Definition emptySpeaker : WorkspaceAudio.t :=
  WorkspaceAudio.mk ∅ None false (Some WorkspaceAudio.Running).

End MoreExamples.

(** * Properties *)

(** ** Bounded evaluation *)

Lemma bind_Ret {A B} (m : res A) (f : A -> res B) (b : B) :
  m ≫= f = Ret b <-> exists a, m = Ret a /\ f a = Ret b.
Proof.
  destruct m as [a|]; simpl; split.
  - intros H. exists a. done.
  - intros (a' & [= <-] & H). done.
  - done.
  - intros (a' & [=] & _).
Qed.

(** [simplify_res]: open the binds of a hypothesis [_ = Ret _]. *)
Ltac simplify_res :=
  repeat match goal with
  | H : _ ≫= _ = Ret _ |- _ => apply bind_Ret in H; destruct H as (? & ? & H)
  | H : Ret _ = Ret _ |- _ => injection H as H; try subst
  | H : OutOfFuel = Ret _ |- _ => discriminate H
  | H : (_, _) = (_, _) |- _ => injection H as ? H; try subst
  end.

(** ** The loop flag *)

Lemma setNavigationLoops_restore (loop : bool) (s : State) :
  setNavigationLoops (getNavigationLoops s) (setNavigationLoops loop s) = s.
Proof. by destruct s. Qed.

Lemma setNavigationLoops_get (loop : bool) (s : State) :
  getNavigationLoops (setNavigationLoops loop s) = loop.
Proof. done. Qed.

Section Traversal.

Variable d : Doc.
Variable getNavigator : bool -> Navigator.t.

Lemma getPreviousNode_state fuel node isValid loop s r s' :
  getPreviousNode getNavigator fuel node isValid loop s = Ret (r, s') -> s' = s.
Proof.
  unfold getPreviousNode. intros H. simplify_res.
  apply setNavigationLoops_restore.
Qed.

Lemma getLastNode_state fuel s r s' :
  getLastNode getNavigator fuel s = Ret (r, s') -> s' = s.
Proof. apply getPreviousNode_state. Qed.

Lemma getNextNode_state fuel node isValid loop s r s' :
  getNextNode getNavigator fuel node isValid loop s = Ret (r, s') -> s' = s.
Proof.
  unfold getNextNode. intros H.
  apply bind_Ret in H as ([result s2] & Hbody & H).
  injection H as _ <-.
  assert (s2 = setNavigationLoops loop s) as ->;
    [|apply setNavigationLoops_restore].
  destruct node as [n|]; [destruct loop|].
  - apply bind_Ret in Hbody as (r0 & _ & Hbody). by injection Hbody.
  - apply bind_Ret in Hbody as ([last s3] & Hlast & Hbody).
    apply getLastNode_state in Hlast as ->.
    case_bool_decide.
    + by injection Hbody.
    + apply bind_Ret in Hbody as (r0 & _ & Hbody). by injection Hbody.
  - by injection Hbody.
Qed.

(** With [loop] the call is the traversal itself, run while the flag is
    [loop]. *)
Lemma getNextNode_loop fuel n isValid s :
  getNextNode getNavigator fuel (Some n) isValid true s =
  r ← getNextNodeImpl getNavigator fuel (setNavigationLoops true s) (Some n) isValid ∅;
  Ret (r, s).
Proof.
  unfold getNextNode.
  destruct (getNextNodeImpl _ _ _ _ _ _) as [r|]; simpl; [|done].
  by rewrite setNavigationLoops_restore.
Qed.

Lemma getPreviousNode_loop fuel n isValid s :
  getPreviousNode getNavigator fuel (Some n) isValid true s =
  r ← getPreviousNodeImpl getNavigator fuel (setNavigationLoops true s) (Some n) isValid ∅;
  Ret (r, s).
Proof.
  unfold getPreviousNode. simpl.
  destruct (getPreviousNodeImpl _ _ _ _ _ _) as [r|]; simpl; [|done].
  by rewrite setNavigationLoops_restore.
Qed.

Lemma getNextNode_null fuel isValid loop s :
  getNextNode getNavigator fuel None isValid loop s = Ret (None, s).
Proof. unfold getNextNode. simpl. by rewrite setNavigationLoops_restore. Qed.

Lemma getPreviousNode_null fuel isValid loop s :
  getPreviousNode getNavigator fuel None isValid loop s = Ret (None, s).
Proof. unfold getPreviousNode. simpl. by rewrite setNavigationLoops_restore. Qed.

(** A node that [getNextNode] or [getPreviousNode] returns was found by
    the traversal run while the flag was the [loop] argument. *)
Lemma getNextNode_result fuel node isValid loop s r s' :
  getNextNode getNavigator fuel node isValid loop s = Ret (r, s') ->
  r = None \/
  getNextNodeImpl getNavigator fuel (setNavigationLoops loop s) node isValid ∅ = Ret r.
Proof.
  unfold getNextNode. intros H.
  apply bind_Ret in H as ([result s2] & Hbody & H).
  injection H as <- _.
  destruct node as [n|]; [destruct loop|].
  - apply bind_Ret in Hbody as (r0 & Himpl & Hbody).
    injection Hbody as <- _. by right.
  - apply bind_Ret in Hbody as ([last s3] & Hlast & Hbody).
    apply getLastNode_state in Hlast as ->.
    case_bool_decide.
    + injection Hbody as <- _. by left.
    + apply bind_Ret in Hbody as (r0 & Himpl & Hbody).
      injection Hbody as <- _. by right.
  - injection Hbody as <- _. by left.
Qed.

Lemma getPreviousNode_result fuel node isValid loop s r s' :
  getPreviousNode getNavigator fuel node isValid loop s = Ret (r, s') ->
  r = None \/
  getPreviousNodeImpl getNavigator fuel (setNavigationLoops loop s) node isValid ∅ = Ret r.
Proof.
  unfold getPreviousNode. intros H.
  apply bind_Ret in H as (result & Hbody & H).
  injection H as <- _.
  destruct node as [n|]; [|injection Hbody as <-; by left].
  destruct (negb loop && _); [|by right].
  injection Hbody as <-. by left.
Qed.

(** C10. [getNextNode] and [getPreviousNode] leave the cursor's loop flag
    unchanged: whenever either returns, with a node or with null, the
    state it returns is the state it was called in, so [navigationLoops]
    has its saved value again; a node it returns was found by the
    traversal run while the flag was the [loop] argument; and with
    [loop = true] the call is exactly that traversal followed by the
    restoration. *)
Theorem getNode_restores_navigationLoops :
  (forall fuel node isValid loop s r s',
      getNextNode getNavigator fuel node isValid loop s = Ret (r, s') ->
      getNavigationLoops s' = getNavigationLoops s /\ s' = s /\
      (r = None \/
       getNextNodeImpl getNavigator fuel (setNavigationLoops loop s) node isValid ∅
       = Ret r))
  /\ (forall fuel node isValid loop s r s',
      getPreviousNode getNavigator fuel node isValid loop s = Ret (r, s') ->
      getNavigationLoops s' = getNavigationLoops s /\ s' = s /\
      (r = None \/
       getPreviousNodeImpl getNavigator fuel (setNavigationLoops loop s) node isValid ∅
       = Ret r))
  /\ (forall fuel n isValid s,
      getNextNode getNavigator fuel (Some n) isValid true s =
      r ← getNextNodeImpl getNavigator fuel (setNavigationLoops true s) (Some n) isValid ∅;
      Ret (r, s))
  /\ (forall fuel n isValid s,
      getPreviousNode getNavigator fuel (Some n) isValid true s =
      r ← getPreviousNodeImpl getNavigator fuel (setNavigationLoops true s) (Some n) isValid ∅;
      Ret (r, s)).
Proof.
  split; [|split; [|split]].
  - intros fuel node isValid loop s r s' H.
    pose proof (getNextNode_result _ _ _ _ _ _ _ H) as Hr.
    apply getNextNode_state in H as ->. done.
  - intros fuel node isValid loop s r s' H.
    pose proof (getPreviousNode_result _ _ _ _ _ _ _ H) as Hr.
    apply getPreviousNode_state in H as ->. done.
  - apply getNextNode_loop.
  - apply getPreviousNode_loop.
Qed.

(** ** The last node *)

Lemma getPreviousNodeImpl_alwaysTrue fuel s n :
  getPreviousNodeImpl getNavigator (S fuel) s (Some n) alwaysTrue ∅ =
  previousCandidate fuel (getNavigator (getNavigationLoops s)) n.
Proof.
  simpl. rewrite decide_False by set_solver.
  by destruct (previousCandidate _ _ _).
Qed.

(** C5. [getLastNode()] is [getPreviousNode(getFirstNode(), () => true,
    true)], where [getFirstNode()] is the navigator's first child of the
    workspace; under the always-true predicate that backward traversal is
    a single step: the right-most child of the first node's previous
    sibling, else the first node's parent, asked of the navigator while
    the loop flag is set. *)
Theorem getLastNode_one_step_back :
  (forall fuel s,
      getLastNode getNavigator fuel s =
      getPreviousNode getNavigator fuel (getFirstNode getNavigator s) alwaysTrue true s)
  /\ (forall s,
      getFirstNode getNavigator s =
      Navigator.getFirstChild (getNavigator (getNavigationLoops s)) NWorkspace)
  /\ (forall fuel s,
      getLastNode getNavigator (S fuel) s =
      match getFirstNode getNavigator s with
      | None => Ret (None, s)
      | Some first =>
          last ← previousCandidate fuel (getNavigator true) first;
          Ret (last, s)
      end).
Proof.
  split; [done|split; [done|]].
  intros fuel s. unfold getLastNode.
  destruct (getFirstNode getNavigator s) as [first|].
  - rewrite getPreviousNode_loop, getPreviousNodeImpl_alwaysTrue. done.
  - apply getPreviousNode_null.
Qed.

(** ** Moving the cursor *)

Lemma getCurNode_setCurNode n s : getCurNode (setCurNode d n s) = Some n.
Proof. done. Qed.

Lemma potentialNodes_setCurNode n s :
  potentialNodes (setCurNode d n s) = potentialNodes s.
Proof.
  unfold setCurNode.
  destruct (getSourceBlock d s), (getSourceBlockFromNode d (Some n)); try done.
  by case_decide.
Qed.

Lemma navigationLoops_setCurNode n s :
  navigationLoops (setCurNode d n s) = navigationLoops s.
Proof.
  unfold setCurNode.
  destruct (getSourceBlock d s), (getSourceBlockFromNode d (Some n)); try done.
  by case_decide.
Qed.

Lemma forward_move_spec direction fuel s :
  (let move := fun fuel s =>
     match getCurNode s with
     | None => Ret (None, s)
     | Some curNode =>
         '(newNode, s1) ← getNextNode getNavigator fuel (Some curNode)
                             (getValidationFunction d direction)
                             (getNavigationLoops s) s;
         match newNode with
         | Some n => Ret (newNode, setCurNode d n s1)
         | None => Ret (newNode, s1)
         end
     end in
   (getCurNode s = None -> move fuel s = Ret (None, s))
   /\ (forall s', move fuel s = Ret (None, s') -> s' = s)
   /\ (forall n s', move fuel s = Ret (Some n, s') -> getCurNode s' = Some n)
   /\ (forall c s1, getCurNode s = Some c ->
         getNextNode getNavigator fuel (Some c) (getValidationFunction d direction)
                     (getNavigationLoops s) s = Ret (None, s1) ->
         move fuel s = Ret (None, s))).
Proof.
  simpl. destruct (getCurNode s) as [c|] eqn:Hcur; repeat split; try done.
  - intros s' H. apply bind_Ret in H as ([r s1] & Hnext & H).
    apply getNextNode_state in Hnext as ->.
    destruct r; by injection H.
  - intros n s' H. apply bind_Ret in H as ([r s1] & Hnext & H).
    destruct r; [|done]. by injection H as -> <-.
  - intros c' s1 [= <-] H. rewrite H. simpl.
    by apply getNextNode_state in H as ->.
  - by intros s' [= <-].
Qed.

Lemma backward_move_spec direction fuel s :
  (let move := fun fuel s =>
     match getCurNode s with
     | None => Ret (None, s)
     | Some curNode =>
         '(newNode, s1) ← getPreviousNode getNavigator fuel (Some curNode)
                             (getValidationFunction d direction)
                             (getNavigationLoops s) s;
         match newNode with
         | Some n => Ret (newNode, setCurNode d n s1)
         | None => Ret (newNode, s1)
         end
     end in
   (getCurNode s = None -> move fuel s = Ret (None, s))
   /\ (forall s', move fuel s = Ret (None, s') -> s' = s)
   /\ (forall n s', move fuel s = Ret (Some n, s') -> getCurNode s' = Some n)
   /\ (forall c s1, getCurNode s = Some c ->
         getPreviousNode getNavigator fuel (Some c) (getValidationFunction d direction)
                     (getNavigationLoops s) s = Ret (None, s1) ->
         move fuel s = Ret (None, s))).
Proof.
  simpl. destruct (getCurNode s) as [c|] eqn:Hcur; repeat split; try done.
  - intros s' H. apply bind_Ret in H as ([r s1] & Hprev & H).
    apply getPreviousNode_state in Hprev as ->.
    destruct r; by injection H.
  - intros n s' H. apply bind_Ret in H as ([r s1] & Hprev & H).
    destruct r; [|done]. by injection H as -> <-.
  - intros c' s1 [= <-] H. rewrite H. simpl.
    by apply getPreviousNode_state in H as ->.
  - by intros s' [= <-].
Qed.

(** C6. Each of [next()], [prev()], [in()] and [out()] changes the
    current position only when its traversal found a node: with no
    current node it returns null in the unchanged state; when it returns
    null the state, and so the current position, is the one it was
    called in; when the traversal it delegates to returns null it
    returns null; and when it returns a node, that node is the new
    current position. *)
Theorem failed_move_keeps_position (direction : NavigationDirection) fuel s :
  (getCurNode s = None -> move d getNavigator direction fuel s = Ret (None, s))
  /\ (forall s', move d getNavigator direction fuel s = Ret (None, s') ->
        s' = s /\ getCurNode s' = getCurNode s)
  /\ (forall c s1, getCurNode s = Some c ->
        delegate d getNavigator direction fuel c s = Ret (None, s1) ->
        move d getNavigator direction fuel s = Ret (None, s))
  /\ (forall n s', move d getNavigator direction fuel s = Ret (Some n, s') ->
        getCurNode s' = Some n).
Proof.
  destruct direction.
  - destruct (forward_move_spec NEXT fuel s) as (H1 & H2 & H3 & H4).
    repeat split; try done. + by apply H2. + by rewrite (H2 _ H).
  - destruct (backward_move_spec PREVIOUS fuel s) as (H1 & H2 & H3 & H4).
    repeat split; try done. + by apply H2. + by rewrite (H2 _ H).
  - destruct (forward_move_spec IN fuel s) as (H1 & H2 & H3 & H4).
    repeat split; try done. + by apply H2. + by rewrite (H2 _ H).
  - destruct (backward_move_spec OUT fuel s) as (H1 & H2 & H3 & H4).
    repeat split; try done. + by apply H2. + by rewrite (H2 _ H).
Qed.

(** Without a current node [atEndOfLine()] answers false at once. *)
Lemma atEndOfLine_no_current_node fuel s :
  getCurNode s = None -> atEndOfLine d getNavigator fuel s = Ret (false, s).
Proof. intros H. unfold atEndOfLine. by rewrite H. Qed.

(** C4. With a current node, [atEndOfLine()] returns exactly when the two
    forward traversals it makes return (under the IN predicate and under
    the NEXT predicate, both from the current node with the cursor's
    loop mode), and its answer is true if and only if the two nodes are
    the same; it is false whenever they differ, also when exactly one of
    them is null.  The state is left unchanged. *)
Theorem atEndOfLine_iff fuel s cur inNode nextNode s1 s2 :
  getCurNode s = Some cur ->
  getNextNode getNavigator fuel (Some cur) (getValidationFunction d IN)
              (getNavigationLoops s) s = Ret (inNode, s1) ->
  getNextNode getNavigator fuel (Some cur) (getValidationFunction d NEXT)
              (getNavigationLoops s) s = Ret (nextNode, s2) ->
  exists b, atEndOfLine d getNavigator fuel s = Ret (b, s)
            /\ (b = true <-> inNode = nextNode)
            /\ (inNode <> nextNode -> b = false).
Proof.
  intros Hcur Hin Hnext.
  pose proof (getNextNode_state _ _ _ _ _ _ _ Hin) as ->.
  pose proof (getNextNode_state _ _ _ _ _ _ _ Hnext) as ->.
  unfold atEndOfLine. rewrite Hcur, Hin. cbn [mbind res_bind].
  rewrite Hnext. cbn [mbind res_bind].
  exists (bool_decide (inNode = nextNode)). split; [done|]. split.
  - by rewrite bool_decide_eq_true.
  - intros Hne. by apply bool_decide_eq_false.
Qed.

End Traversal.

(** ** Validation functions *)

Section Validation.

Variable d : Doc.
Variable getNavigator : bool -> Navigator.t.

(** C2. For the NEXT and PREVIOUS directions the validation function
    answers true, whatever the state and the fuel, on (a) a block whose
    output connection is not attached to a parent block, (b) a workspace
    comment, (c) a next-statement connection, and (d) an input-value
    connection whose source block has at least one statement input and
    whose parent input is not the first input of that block. *)
Theorem statement_level_candidate_valid direction s fuel :
  direction = NEXT \/ direction = PREVIOUS ->
  (forall b,
      outputTargetBlock d b = None ->
      getValidationFunction d direction s fuel (Some (NBlock b)) = Ret true)
  /\ (forall c,
      getValidationFunction d direction s fuel (Some (NComment c)) = Ret true)
  /\ (forall c,
      RenderedConnection.type (connection d c) = NEXT_STATEMENT ->
      getValidationFunction d direction s fuel (Some (NConnection c)) = Ret true)
  /\ (forall c,
      RenderedConnection.type (connection d c) = INPUT_VALUE ->
      0 < BlockSvg.statementInputCount
            (block d (RenderedConnection.getSourceBlock (connection d c))) ->
      (forall i,
          head (BlockSvg.inputList
                  (block d (RenderedConnection.getSourceBlock (connection d c))))
          = Some i ->
          RenderedConnection.getParentInput (connection d c) <> Some i) ->
      getValidationFunction d direction s fuel (Some (NConnection c)) = Ret true).
Proof.
  intros Hdir.
  assert (forall candidate,
             startsLine d candidate = true ->
             getValidationFunction d direction s fuel candidate = Ret true) as Hstart.
  { intros candidate H. destruct Hdir as [-> | ->]; simpl; by rewrite H. }
  repeat split.
  - intros b Hb. apply Hstart. simpl. by rewrite Hb.
  - intros c. by apply Hstart.
  - intros c Hc. apply Hstart. simpl. by rewrite Hc.
  - intros c Hc Hcount Hfirst. apply Hstart. simpl. rewrite Hc.
    apply andb_true_intro. split.
    + apply negb_true_iff, Nat.eqb_neq. lia.
    + apply negb_true_iff. unfold isFirstInput.
      destruct (head _) as [i|] eqn:Hhead; [|done].
      destruct (RenderedConnection.getParentInput _) as [p|] eqn:Hp; [|done].
      apply bool_decide_eq_false. intros ->. by apply (Hfirst p).
Qed.

(** A block plugged into a parent that renders its inputs inline is
    rejected by the PREVIOUS validation function. *)
Lemma inline_child_invalid s fuel y x :
  outputTargetBlock d y = Some x ->
  BlockSvg.getInputsInline (block d x) = true ->
  getValidationFunction d PREVIOUS s fuel (Some (NBlock y)) = Ret false.
Proof.
  intros Hx Hinline. simpl. rewrite Hx.
  destruct (leavesNextConnection _ _ _); [done|].
  destruct (outputTargetConnection d y) as [tc|]; simpl.
  - destruct (RenderedConnection.getParentInput _) as [pi|]; [|done].
    destruct (_ || _); [done|].
    destruct (getSourceBlockFromNode d (getCurNode s)); [|done].
    unfold parentUsesInlineInputs. by rewrite Hx, Hinline.
  - destruct (getSourceBlockFromNode d (getCurNode s)); [|done].
    unfold parentUsesInlineInputs. by rewrite Hx, Hinline.
Qed.

(** A node that a traversal returns was accepted by [isValid]. *)
Lemma getPreviousNodeImpl_valid fuel s node isValid visited n :
  getPreviousNodeImpl getNavigator fuel s node isValid visited = Ret (Some n) ->
  exists f, isValid s f (Some n) = Ret true.
Proof.
  revert node visited.
  induction fuel as [|fuel IH]; intros node visited H; [done|].
  simpl in H. destruct node as [m|]; [|done].
  case_decide; [done|].
  apply bind_Ret in H as (newNode & Hcand & H).
  apply bind_Ret in H as (valid & Hvalid & H).
  destruct valid.
  - injection H as ->. by exists fuel.
  - destruct newNode; [|done]. by apply IH in H.
Qed.

Lemma getNextNodeImpl_valid fuel s node isValid visited n :
  getNextNodeImpl getNavigator fuel s node isValid visited = Ret (Some n) ->
  exists f, isValid s f (Some n) = Ret true.
Proof.
  revert node visited.
  induction fuel as [|fuel IH]; intros node visited H; [done|].
  simpl in H. destruct node as [m|]; [|done].
  case_decide; [done|].
  apply bind_Ret in H as (newNode & Hcand & H).
  apply bind_Ret in H as (valid & Hvalid & H).
  destruct valid.
  - injection H as ->. by exists fuel.
  - destruct newNode; [|done]. by apply IH in H.
Qed.

(** C3. A block whose immediate parent block (the block its output
    connection is plugged into) renders its inputs inline is rejected by
    the PREVIOUS validation function, whatever the current node; hence
    neither the backward traversal under that function nor [prev()] ever
    returns such a block. *)
Theorem inline_child_rejected_previous y x :
  outputTargetBlock d y = Some x ->
  BlockSvg.getInputsInline (block d x) = true ->
  (forall s fuel,
      getValidationFunction d PREVIOUS s fuel (Some (NBlock y)) = Ret false)
  /\ (forall fuel node loop s r s',
      getPreviousNode getNavigator fuel node (getValidationFunction d PREVIOUS) loop s
      = Ret (r, s') ->
      r <> Some (NBlock y))
  /\ (forall fuel s r s',
      prev d getNavigator fuel s = Ret (r, s') -> r <> Some (NBlock y)).
Proof.
  intros Hx Hinline.
  assert (forall fuel node loop s r s',
      getPreviousNode getNavigator fuel node (getValidationFunction d PREVIOUS) loop s
      = Ret (r, s') ->
      r <> Some (NBlock y)) as Htraverse.
  { intros fuel node loop s r s' H ->.
    apply getPreviousNode_result in H as [H|H]; [done|].
    apply getPreviousNodeImpl_valid in H as (f & H).
    by rewrite (inline_child_invalid _ _ _ _ Hx Hinline) in H. }
  split; [|split]; [|done|].
  - intros s fuel. by apply inline_child_invalid with x.
  - intros fuel s r s' H. unfold prev in H.
    destruct (getCurNode s) as [c|]; [|by injection H as <- _].
    apply bind_Ret in H as ([r0 s1] & Hprev & H).
    apply Htraverse in Hprev.
    destruct r0; injection H as <- _; done.
Qed.

End Validation.

(** ** Recovering the position after a deletion *)

Section Recovery.

Lemma moveToFirstValid_find (d : Doc) nodes s :
  moveToFirstValid d nodes s =
  match find (notDisposed d) nodes with
  | Some node => (Normal, setCurNode d node s)
  | None => (Throw "no valid nodes in this.potentialNodes", s)
  end.
Proof.
  induction nodes as [|node rest IH]; simpl; [done|].
  by destruct (notDisposed d node).
Qed.

Lemma find_notDisposed_None (d : Doc) nodes :
  find (notDisposed d) nodes = None <->
  forall node, node ∈ nodes ->
    exists b, getSourceBlockFromNode d (Some node) = Some b
              /\ BlockSvg.disposed (block d b) = true.
Proof.
  induction nodes as [|node rest IH]; cbn [find].
  - split; [|done]. intros _ node H. by apply elem_of_nil in H.
  - unfold notDisposed at 1.
    destruct (getSourceBlockFromNode d (Some node)) as [b|] eqn:Hsrc.
    + destruct (BlockSvg.disposed (block d b)) eqn:Hdisp; cbn [negb].
      * rewrite IH. split.
        -- intros H n [->|Hn]%elem_of_cons; [by exists b|by apply H].
        -- intros H n Hn. apply H. by right.
      * split; [done|]. intros H.
        destruct (H node) as (b' & Hb' & Hd); [by left|].
        congruence.
    + split; [done|]. intros H.
      destruct (H node) as (b' & Hb' & _); [by left|]. congruence.
Qed.

(** C8. [postDelete()] throws in exactly two situations: when there is no
    pending candidate list (no preceding [preDelete]), and when every
    captured candidate has an owning block that is disposed.  When it
    throws, the current position is the one before the call (no default
    position is chosen); in all other cases it ends normally with the
    current position set to the first candidate that is not disposed.
    Either way the pending list is cleared. *)
Theorem postDelete_throws_iff (d : Doc) (s : State) :
  (fst (postDelete d s) <> Normal <->
   potentialNodes s = None \/
   exists nodes, potentialNodes s = Some nodes /\
     forall node, node ∈ nodes ->
       exists b, getSourceBlockFromNode d (Some node) = Some b
                 /\ BlockSvg.disposed (block d b) = true)
  /\ (potentialNodes s = None ->
      fst (postDelete d s) = Throw "must call preDelete first")
  /\ (fst (postDelete d s) <> Normal ->
      getCurNode (snd (postDelete d s)) = getCurNode s)
  /\ (fst (postDelete d s) = Normal ->
      exists nodes node,
        potentialNodes s = Some nodes
        /\ find (notDisposed d) nodes = Some node
        /\ getCurNode (snd (postDelete d s)) = Some node)
  /\ potentialNodes (snd (postDelete d s)) = None.
Proof.
  unfold postDelete.
  destruct (potentialNodes s) as [nodes|] eqn:Hnodes.
  - rewrite moveToFirstValid_find.
    destruct (find (notDisposed d) nodes) as [node|] eqn:Hfind; cbn [fst snd].
    + rewrite potentialNodes_setCurNode, getCurNode_setCurNode.
      repeat split; try done.
      * intros [H|(nodes' & [= <-] & H)]; [done|].
        apply find_notDisposed_None in H. congruence.
      * intros _. by exists nodes, node.
    + repeat split; try done.
      intros _. right. exists nodes. split; [done|].
      by apply find_notDisposed_None.
  - cbn [fst snd]. repeat split; try done. intros _. by left.
Qed.

(** What [preDelete] records. *)
Lemma preDelete_nodes (d : Doc) deletedBlock s :
  potentialNodes (preDelete d deletedBlock s) =
  Some (pushed (getCurNode s)
        ++ pushed (NConnection <$>
             nullish
               (pc ← BlockSvg.previousConnection (block d deletedBlock);
                RenderedConnection.targetConnection (connection d pc))
               (oc ← BlockSvg.outputConnection (block d deletedBlock);
                RenderedConnection.targetConnection (connection d oc)))
        ++ pushed (NBlock <$> BlockSvg.getNextBlock (block d deletedBlock))
        ++ pushed (NBlock <$> BlockSvg.getParent (block d deletedBlock))
        ++ [NWorkspace]).
Proof. unfold preDelete. simpl. by rewrite <- !app_assoc. Qed.

Lemma postDelete_first_valid (d : Doc) s nodes node :
  potentialNodes s = Some nodes ->
  find (notDisposed d) nodes = Some node ->
  fst (postDelete d s) = Normal /\ getCurNode (snd (postDelete d s)) = Some node.
Proof.
  intros Hnodes Hfind. unfold postDelete.
  rewrite Hnodes, moveToFirstValid_find, Hfind. cbn [fst snd].
  by rewrite getCurNode_setCurNode.
Qed.

(** The connection the deleted block is attached to: the target of its
    previous connection when that is connected, else the target of its
    output connection. *)
Lemma preDelete_attached (d : Doc) deletedBlock s :
  potentialNodes (preDelete d deletedBlock s) =
  Some (pushed (getCurNode s)
        ++ pushed (NConnection <$>
             match
               pc ← BlockSvg.previousConnection (block d deletedBlock);
               RenderedConnection.targetConnection (connection d pc)
             with
             | Some a => Some a
             | None =>
                 oc ← BlockSvg.outputConnection (block d deletedBlock);
                 RenderedConnection.targetConnection (connection d oc)
             end)
        ++ pushed (NBlock <$> BlockSvg.getNextBlock (block d deletedBlock))
        ++ pushed (NBlock <$> BlockSvg.getParent (block d deletedBlock))
        ++ [NWorkspace]).
Proof.
  rewrite preDelete_nodes. unfold nullish.
  by destruct (BlockSvg.previousConnection (block d deletedBlock) ≫= _).
Qed.

(** C1. [preDelete(deletedBlock)] records, in this order, the current
    position (if any), the connection the deleted block is attached to
    (the target of its previous connection, and only when the previous
    connection is absent or unconnected the target of its output
    connection; nothing when neither is connected), the block after the
    deleted block (if any), the parent block of the deleted block (if
    any) and the workspace; a later [postDelete], run on the document as
    it is by then, moves the current position to the first recorded node
    whose owning block, if it has one, is not disposed.  For a stack
    A → B → C with the cursor on B: once B is disposed and A is not, the
    position after [preDelete(B)], the removal and [postDelete()] is the
    connection of A to which B was attached; the same holds for a value
    block B attached through its output connection. *)
Theorem deletion_recovery (d d' : Doc) :
  (* attached through the previous connection *)
  (forall deletedBlock s a,
      (pc ← BlockSvg.previousConnection (block d deletedBlock);
       RenderedConnection.targetConnection (connection d pc)) = Some a ->
      potentialNodes (preDelete d deletedBlock s) =
      Some (pushed (getCurNode s)
            ++ [NConnection a]
            ++ pushed (NBlock <$> BlockSvg.getNextBlock (block d deletedBlock))
            ++ pushed (NBlock <$> BlockSvg.getParent (block d deletedBlock))
            ++ [NWorkspace]))
  (* no connected previous connection: attached through the output
     connection *)
  /\ (forall deletedBlock s a,
      (pc ← BlockSvg.previousConnection (block d deletedBlock);
       RenderedConnection.targetConnection (connection d pc)) = None ->
      (oc ← BlockSvg.outputConnection (block d deletedBlock);
       RenderedConnection.targetConnection (connection d oc)) = Some a ->
      potentialNodes (preDelete d deletedBlock s) =
      Some (pushed (getCurNode s)
            ++ [NConnection a]
            ++ pushed (NBlock <$> BlockSvg.getNextBlock (block d deletedBlock))
            ++ pushed (NBlock <$> BlockSvg.getParent (block d deletedBlock))
            ++ [NWorkspace]))
  (* attached to nothing *)
  /\ (forall deletedBlock s,
      (pc ← BlockSvg.previousConnection (block d deletedBlock);
       RenderedConnection.targetConnection (connection d pc)) = None ->
      (oc ← BlockSvg.outputConnection (block d deletedBlock);
       RenderedConnection.targetConnection (connection d oc)) = None ->
      potentialNodes (preDelete d deletedBlock s) =
      Some (pushed (getCurNode s)
            ++ pushed (NBlock <$> BlockSvg.getNextBlock (block d deletedBlock))
            ++ pushed (NBlock <$> BlockSvg.getParent (block d deletedBlock))
            ++ [NWorkspace]))
  (* postDelete takes the first survivor of the pending list *)
  /\ (forall s nodes node,
         potentialNodes s = Some nodes ->
         find (notDisposed d') nodes = Some node ->
         fst (postDelete d' s) = Normal
         /\ getCurNode (snd (postDelete d' s)) = Some node)
  (* the stack A → B → C, the cursor on B, B deleted: [d] is the document
     before the removal and [d'] the document after it *)
  /\ (forall (s s' : State) (A B : BlockId) (p a : ConnId),
         getCurNode s = Some (NBlock B) ->
         BlockSvg.previousConnection (block d B) = Some p ->
         RenderedConnection.targetConnection (connection d p) = Some a ->
         potentialNodes s' = potentialNodes (preDelete d B s) ->
         BlockSvg.disposed (block d' B) = true ->
         RenderedConnection.getSourceBlock (connection d' a) = A ->
         BlockSvg.disposed (block d' A) = false ->
         fst (postDelete d' s') = Normal
         /\ getCurNode (snd (postDelete d' s')) = Some (NConnection a))
  (* a value block B plugged into an input of A through its output
     connection, the cursor on B, B deleted *)
  /\ (forall (s s' : State) (A B : BlockId) (o a : ConnId),
         getCurNode s = Some (NBlock B) ->
         (pc ← BlockSvg.previousConnection (block d B);
          RenderedConnection.targetConnection (connection d pc)) = None ->
         BlockSvg.outputConnection (block d B) = Some o ->
         RenderedConnection.targetConnection (connection d o) = Some a ->
         potentialNodes s' = potentialNodes (preDelete d B s) ->
         BlockSvg.disposed (block d' B) = true ->
         RenderedConnection.getSourceBlock (connection d' a) = A ->
         BlockSvg.disposed (block d' A) = false ->
         fst (postDelete d' s') = Normal
         /\ getCurNode (snd (postDelete d' s')) = Some (NConnection a)).
Proof.
  assert (forall (s' : State) (A B : BlockId) (a : ConnId) rest,
    potentialNodes s' = Some ([NBlock B; NConnection a] ++ rest) ->
    BlockSvg.disposed (block d' B) = true ->
    RenderedConnection.getSourceBlock (connection d' a) = A ->
    BlockSvg.disposed (block d' A) = false ->
    fst (postDelete d' s') = Normal
    /\ getCurNode (snd (postDelete d' s')) = Some (NConnection a)) as Hland.
  { intros s' A B a rest Hpending HB Ha HA.
    eapply postDelete_first_valid; [done|].
    cbn [app find]. unfold notDisposed at 1. cbn [getSourceBlockFromNode].
    rewrite HB. cbn [negb].
    unfold notDisposed at 1. cbn [getSourceBlockFromNode].
    by rewrite Ha, HA. }
  split; [|split; [|split; [|split; [|split]]]].
  - intros deletedBlock s a Hprev. by rewrite preDelete_attached, Hprev.
  - intros deletedBlock s a Hprev Hout. by rewrite preDelete_attached, Hprev, Hout.
  - intros deletedBlock s Hprev Hout. by rewrite preDelete_attached, Hprev, Hout.
  - apply postDelete_first_valid.
  - intros s s' A B p a Hcur Hprev Htarget Hpending HB Ha HA.
    eapply (Hland s' A B a); try done.
    rewrite Hpending, preDelete_attached, Hcur, Hprev.
    cbn [mbind option_bind]. by rewrite Htarget.
  - intros s s' A B o a Hcur Hprev Hout Htarget Hpending HB Ha HA.
    eapply (Hland s' A B a); try done.
    rewrite Hpending, preDelete_attached, Hcur, Hprev, Hout.
    cbn [mbind option_bind]. by rewrite Htarget.
Qed.

End Recovery.

(** ** Shortcut items *)

Module ShortcutItemsFacts.
Import ShortcutItems.

Lemma isCuttable_deletable focused :
  isCuttable focused = true -> passesDeletableCheck focused = true.
Proof.
  unfold isCuttable, passesDeletableCheck.
  intros H. apply andb_true_iff in H as [H Hdel].
  apply andb_true_iff in H as [_ Hi]. by rewrite Hi, Hdel.
Qed.

(** C9. The Cut shortcut's precondition is false whenever the focused
    node fails the deletable check, whatever the read-only flag, the
    drag-in-progress flag, the exclusive edit session and the other
    capabilities of the node; the precondition holds exactly when a node
    is focused that is copyable and deletable, the workspace is neither
    read-only nor dragging, and no exclusive edit session is open. *)
Theorem cut_requires_deletable ephemeralFocusTaken workspace focused :
  passesDeletableCheck focused = false ->
  cutPreconditionFn ephemeralFocusTaken workspace (mkScope (Some focused)) = false
  /\ (forall eph ws scope,
        cutPreconditionFn eph ws scope = true <->
        exists node,
          focusedNode scope = Some node
          /\ isCopyable node = true
          /\ passesDeletableCheck node = true
          /\ isReadOnly ws = false
          /\ isDragging ws = false
          /\ eph = false).
Proof.
  intros Hdel. split.
  - unfold cutPreconditionFn. simpl.
    destruct (isCuttable focused) eqn:Hcut.
    + apply isCuttable_deletable in Hcut. congruence.
    + by rewrite andb_false_r.
  - intros eph ws [node]. unfold cutPreconditionFn. simpl. split.
    + destruct node as [node|]; [|done]. intros H.
      apply andb_true_iff in H as [H Hcut].
      apply andb_true_iff in H as [H Heph].
      apply andb_true_iff in H as [Hro Hdrag].
      exists node. repeat split.
      * unfold isCuttable in Hcut.
        apply andb_true_iff in Hcut as [Hcut _].
        by apply andb_true_iff in Hcut as [Hcut _].
      * by apply isCuttable_deletable.
      * by apply negb_true_iff.
      * by apply negb_true_iff.
      * by apply negb_true_iff.
    + intros (n & -> & Hcopy & Hdelete & -> & -> & ->). simpl.
      unfold isCuttable. rewrite Hcopy. simpl.
      by unfold passesDeletableCheck in Hdelete.
Qed.

End ShortcutItemsFacts.

(** ** Termination of the traversals *)

Section Termination.

Variable d : Doc.
Variable getNavigator : bool -> Navigator.t.

(** *** More fuel does not change an answer *)

Lemma climbToNextSibling_mono fuel fuel' N target newNode r :
  fuel <= fuel' ->
  climbToNextSibling fuel N target newNode = Ret r ->
  climbToNextSibling fuel' N target newNode = Ret r.
Proof.
  revert fuel' target newNode.
  induction fuel as [|fuel IH]; intros fuel' target newNode Hle H;
    destruct newNode as [c|]; try (destruct fuel'; done).
  destruct fuel' as [|fuel']; [lia|]. simpl in *.
  destruct (Navigator.getParent N target); [|done].
  apply IH; [lia|done].
Qed.

Lemma nextCandidate_mono fuel fuel' N node r :
  fuel <= fuel' ->
  nextCandidate fuel N node = Ret r -> nextCandidate fuel' N node = Ret r.
Proof. apply climbToNextSibling_mono. Qed.

Lemma lastSiblingBefore_mono fuel fuel' N stopIfFound newNode nextNode r :
  fuel <= fuel' ->
  lastSiblingBefore fuel N stopIfFound newNode nextNode = Ret r ->
  lastSiblingBefore fuel' N stopIfFound newNode nextNode = Ret r.
Proof.
  revert fuel' newNode nextNode.
  induction fuel as [|fuel IH]; intros fuel' newNode nextNode Hle H;
    destruct nextNode as [nx|]; try (destruct fuel'; done).
  - simpl in H. destruct fuel'; simpl; by case_decide.
  - destruct fuel' as [|fuel']; [lia|]. simpl in *.
    case_decide; [done|]. apply IH; [lia|done].
Qed.

Lemma getRightMostChild_mono fuel fuel' N node stopIfFound r :
  fuel <= fuel' ->
  getRightMostChild fuel N node stopIfFound = Ret r ->
  getRightMostChild fuel' N node stopIfFound = Ret r.
Proof.
  revert fuel' node.
  induction fuel as [|fuel IH]; intros fuel' node Hle H;
    destruct node as [n|]; try (destruct fuel'; done).
  - simpl in H. destruct fuel'; simpl;
      destruct (Navigator.getFirstChild N n); try done; by case_decide.
  - destruct fuel' as [|fuel']; [lia|]. simpl in *.
    destruct (Navigator.getFirstChild N n) as [c|]; [|done].
    case_decide; [done|].
    apply bind_Ret in H as (newNode & Hlast & H).
    apply (lastSiblingBefore_mono _ fuel') in Hlast; [|lia].
    rewrite Hlast. simpl. apply IH; [lia|done].
Qed.

Lemma previousCandidate_mono fuel fuel' N node r :
  fuel <= fuel' ->
  previousCandidate fuel N node = Ret r -> previousCandidate fuel' N node = Ret r.
Proof.
  unfold previousCandidate. intros Hle H.
  apply bind_Ret in H as (rightMost & Hright & H).
  by rewrite (getRightMostChild_mono _ _ _ _ _ _ Hle Hright).
Qed.

Lemma collectParents_mono fuel fuel' parent parents r :
  fuel <= fuel' ->
  collectParents d fuel parent parents = Ret r ->
  collectParents d fuel' parent parents = Ret r.
Proof.
  revert fuel' parent parents.
  induction fuel as [|fuel IH]; intros fuel' parent parents Hle H;
    destruct parent as [p|]; try (destruct fuel'; done).
  destruct fuel' as [|fuel']; [lia|]. simpl in *.
  apply IH; [lia|done].
Qed.

Lemma getValidationFunction_mono direction :
  fuelMonotone (getValidationFunction d direction).
Proof.
  intros s fuel fuel' candidate b Hle.
  assert (forall blk r, getParents d fuel blk = Ret r -> getParents d fuel' blk = Ret r)
    as Hparents by (intros blk r; by apply collectParents_mono).
  destruct direction; simpl; try done.
  all: destruct (startsLine d candidate); [done|].
  all: repeat match goal with
       | |- context [if ?c then Ret false else _] => destruct c; [done|]
       end.
  all: destruct candidate as [[cand| | | |]|]; try done.
  all: destruct (getSourceBlockFromNode d (getCurNode s)) as [cur|]; try done.
  all: destruct (parentUsesInlineInputs d cand); [done|].
  all: intros H; apply bind_Ret in H as (candidateParents & Hcand & H).
  all: rewrite (Hparents _ _ Hcand); simpl.
  all: destruct (_ && _); [done|].
  all: apply bind_Ret in H as (currentParents & Hcur & H).
  all: by rewrite (Hparents _ _ Hcur).
Qed.

(** *** The visited set bounds the recursion *)

Lemma size_unvisited (nodes visited : gset Node) (n : Node) :
  n ∈ nodes -> n ∉ visited ->
  size (nodes ∖ visited) = S (size (nodes ∖ ({[n]} ∪ visited))).
Proof.
  intros Hn Hv.
  replace (nodes ∖ visited) with ({[n]} ∪ nodes ∖ ({[n]} ∪ visited)).
  - rewrite size_union, size_singleton; [done|].
    intros x Hx [_ Hx']%elem_of_difference. apply Hx'.
    by apply elem_of_union_l.
  - apply set_eq. intros x.
    rewrite elem_of_union, !elem_of_difference, elem_of_union, elem_of_singleton.
    destruct (decide (x = n)) as [->|]; tauto.
Qed.

Lemma getNextNodeImpl_returns isValid s nodes k :
  fuelMonotone isValid ->
  stepsReturn getNavigator nextCandidate isValid s nodes k ->
  forall m visited n fuel,
    n ∈ nodes -> size (nodes ∖ visited) <= m -> k + m + 1 <= fuel ->
    returns (getNextNodeImpl getNavigator fuel s (Some n) isValid visited).
Proof.
  intros Hmono Hsteps.
  induction m as [|m IH]; intros visited n fuel Hn Hsize Hfuel;
    (destruct fuel as [|fuel]; [lia|]); simpl;
    (case_decide as Hvisited; [by eexists|]).
  - rewrite (size_unvisited _ _ n) in Hsize by done. lia.
  - destruct (Hsteps n Hn) as (c & b & Hstep & Hvalid & Hclosed).
    rewrite (nextCandidate_mono k fuel _ _ _ ltac:(lia) Hstep). simpl.
    rewrite (Hmono _ k fuel _ _ ltac:(lia) Hvalid). simpl.
    destruct b; [by eexists|]. destruct c as [c|]; [|by eexists].
    apply IH; [by apply Hclosed| |lia].
    rewrite (size_unvisited _ _ n) in Hsize by done. lia.
Qed.

Lemma getPreviousNodeImpl_returns isValid s nodes k :
  fuelMonotone isValid ->
  stepsReturn getNavigator previousCandidate isValid s nodes k ->
  forall m visited n fuel,
    n ∈ nodes -> size (nodes ∖ visited) <= m -> k + m + 1 <= fuel ->
    returns (getPreviousNodeImpl getNavigator fuel s (Some n) isValid visited).
Proof.
  intros Hmono Hsteps.
  induction m as [|m IH]; intros visited n fuel Hn Hsize Hfuel;
    (destruct fuel as [|fuel]; [lia|]); simpl;
    (case_decide as Hvisited; [by eexists|]).
  - rewrite (size_unvisited _ _ n) in Hsize by done. lia.
  - destruct (Hsteps n Hn) as (c & b & Hstep & Hvalid & Hclosed).
    rewrite (previousCandidate_mono k fuel _ _ _ ltac:(lia) Hstep). simpl.
    rewrite (Hmono _ k fuel _ _ ltac:(lia) Hvalid). simpl.
    destruct b; [by eexists|]. destruct c as [c|]; [|by eexists].
    apply IH; [by apply Hclosed| |lia].
    rewrite (size_unvisited _ _ n) in Hsize by done. lia.
Qed.

(** C7 (as amended). On a finite set of nodes inside which every single
    step of a traversal returns (the climb through the parents of the
    forward step, the descent to the right-most child of the backward
    step, and the validity predicate, all within [k] units of fuel),
    [getNextNodeImpl] and [getPreviousNodeImpl] return, structural cycles
    among those nodes included: a call on a node of the visited set
    returns null, every recursive call adds the node it recursed from to
    the visited set, and so [k + size nodes + 1] units of fuel are
    enough. *)
Theorem traversal_returns_when_steps_return isValid s (nodes : gset Node) k :
  fuelMonotone isValid ->
  stepsReturn getNavigator nextCandidate isValid s nodes k ->
  stepsReturn getNavigator previousCandidate isValid s nodes k ->
  forall n visited fuel,
    n ∈ nodes -> k + size nodes + 1 <= fuel ->
    returns (getNextNodeImpl getNavigator fuel s (Some n) isValid visited)
    /\ returns (getPreviousNodeImpl getNavigator fuel s (Some n) isValid visited)
    /\ (n ∈ visited ->
        getNextNodeImpl getNavigator fuel s (Some n) isValid visited = Ret None
        /\ getPreviousNodeImpl getNavigator fuel s (Some n) isValid visited = Ret None).
Proof.
  intros Hmono Hnext Hprev n visited fuel Hn Hfuel.
  assert (size (nodes ∖ visited) <= size nodes) as Hsize
    by (apply subseteq_size; intros x [Hx _]%elem_of_difference; exact Hx).
  split; [|split].
  - by apply (getNextNodeImpl_returns isValid s nodes k Hmono Hnext (size nodes)).
  - by apply (getPreviousNodeImpl_returns isValid s nodes k Hmono Hprev (size nodes)).
  - intros Hvisited. destruct fuel as [|fuel]; [lia|]. simpl.
    by rewrite !decide_True by done.
Qed.

End Termination.

(** ** The traversals on malformed and on cyclic graphs *)

Section Divergence.

Import Examples.

Lemma climb_selfParent fuel target :
  climbToNextSibling fuel selfParent target None = OutOfFuel.
Proof. revert target. induction fuel as [|fuel IH]; intros target; simpl; done. Qed.

Lemma lastSibling_selfSibling fuel newNode :
  lastSiblingBefore fuel selfSibling (NField 0) newNode (Some (NField 2)) = OutOfFuel.
Proof.
  revert newNode. induction fuel as [|fuel IH]; intros newNode; simpl; [done|].
  apply IH.
Qed.

(** C7, the claim as stated fails.  On the graph in which field 0 is its
    own parent (and has neither child nor sibling) the climb through the
    parents inside one forward step never ends: no amount of fuel lets
    [getNextNodeImpl] return.  On the graph in which the first child of
    the previous sibling of field 0 is its own next sibling, the sibling
    walk of [getRightMostChild] never ends: no amount of fuel lets
    [getPreviousNodeImpl] return.  On these two graphs the visited set
    is of no help: the loop that never ends is inside a single step. *)
Lemma traversal_hangs_on_cyclic_graph :
  (forall fuel,
      getNextNodeImpl (fun _ => selfParent) fuel (cursorOn NWorkspace)
                      (Some (NField 0)) alwaysTrue ∅ = OutOfFuel)
  /\ (forall fuel,
      getPreviousNodeImpl (fun _ => selfSibling) fuel (cursorOn NWorkspace)
                          (Some (NField 0)) alwaysTrue ∅ = OutOfFuel).
Proof.
  split; intros [|fuel]; try done; simpl.
  - unfold nextCandidate. simpl. by rewrite climb_selfParent.
  - unfold previousCandidate. simpl. destruct fuel as [|fuel]; [done|].
    simpl. by rewrite lastSibling_selfSibling.
Qed.

(** On the two-field sibling cycle every candidate is rejected by the NEXT
    predicate; the traversal goes once around the cycle and the visited
    set ends it with null. *)
Lemma traversal_stops_on_sibling_cycle :
  getNextNodeImpl (fun _ => siblingCycle) 3 (cursorOn NWorkspace) (Some (NField 0))
                  (getValidationFunction plainDoc NEXT) ∅ = Ret None
  /\ getPreviousNodeImpl (fun _ => siblingCycle) 3 (cursorOn NWorkspace) (Some (NField 0))
                  (getValidationFunction plainDoc NEXT) ∅ = Ret None
  /\ getNextNodeImpl (fun _ => siblingCycle) 2 (cursorOn NWorkspace) (Some (NField 0))
                  (getValidationFunction plainDoc NEXT) ∅ = OutOfFuel.
Proof. by vm_compute. Qed.

End Divergence.

(** ** The theorems at concrete inputs *)

Section Witnesses.

Import Examples.

Lemma deletion_recovery_witness :
  (* the stack A → B → C, B attached through its previous connection *)
  (getCurNode (cursorOn (NBlock blockB)) = Some (NBlock blockB)
   /\ BlockSvg.disposed (block stackAfter blockB) = true
   /\ BlockSvg.disposed (block stackAfter blockA) = false
   /\ fst (postDelete stackAfter
             (preDelete stackBefore blockB (cursorOn (NBlock blockB))))
      = Normal
   /\ getCurNode
        (snd (postDelete stackAfter
                (preDelete stackBefore blockB (cursorOn (NBlock blockB)))))
      = Some (NConnection 10))
  (* the value block 2 attached through its output connection 40 to the
     input connection 12 of block 1 *)
  /\ (BlockSvg.previousConnection (block inlineParent 2) = None
      /\ BlockSvg.outputConnection (block inlineParent 2) = Some 40
      /\ potentialNodes (preDelete inlineParent 2 (cursorOn (NBlock 2)))
         = Some [NBlock 2; NConnection 12; NBlock 1; NWorkspace]
      /\ fst (postDelete MoreExamples.inlineParentAfter
                (preDelete inlineParent 2 (cursorOn (NBlock 2))))
         = Normal
      /\ getCurNode
           (snd (postDelete MoreExamples.inlineParentAfter
                   (preDelete inlineParent 2 (cursorOn (NBlock 2)))))
         = Some (NConnection 12)).
Proof.
  split.
  - split; [reflexivity|]. split; [reflexivity|]. split; [reflexivity|].
    apply (proj1 (proj2 (proj2 (proj2 (proj2
             (deletion_recovery stackBefore stackAfter)))))
             (cursorOn (NBlock blockB)) _ blockA blockB 20 10);
      reflexivity.
  - split; [reflexivity|]. split; [reflexivity|]. split.
    + apply (proj1 (proj2 (deletion_recovery inlineParent MoreExamples.inlineParentAfter))
               2 (cursorOn (NBlock 2)) 12);
        reflexivity.
    + apply (proj2 (proj2 (proj2 (proj2 (proj2
               (deletion_recovery inlineParent MoreExamples.inlineParentAfter)))))
               (cursorOn (NBlock 2)) _ 1 2 40 12);
        reflexivity.
Defined.

Lemma statement_level_candidate_valid_witness :
  RenderedConnection.type (connection inlineParent 11) = INPUT_VALUE
  /\ getValidationFunction inlineParent PREVIOUS (cursorOn NWorkspace) 0
                           (Some (NConnection 11)) = Ret true.
Proof.
  split; [reflexivity|].
  apply (statement_level_candidate_valid inlineParent PREVIOUS (cursorOn NWorkspace) 0);
    [by right|reflexivity|simpl; lia|].
  intros i [= <-]. discriminate.
Defined.

Lemma inline_child_rejected_previous_witness :
  outputTargetBlock inlineParent 2 = Some 1
  /\ BlockSvg.getInputsInline (block inlineParent 1) = true
  /\ getValidationFunction inlineParent PREVIOUS (cursorOn (NBlock 1)) 0
                           (Some (NBlock 2)) = Ret false.
Proof.
  split; [reflexivity|]. split; [reflexivity|].
  apply (inline_child_rejected_previous inlineParent (fun _ => twoComments) 2 1);
    reflexivity.
Defined.

Lemma atEndOfLine_iff_witness :
  exists b,
    atEndOfLine plainDoc (fun _ => twoComments) 3 (cursorOn (NComment 0))
    = Ret (b, cursorOn (NComment 0))
    /\ (b = true <-> Some (NComment 1) = Some (NComment 1))
    /\ (Some (NComment 1) <> Some (NComment 1) -> b = false).
Proof.
  apply (atEndOfLine_iff plainDoc (fun _ => twoComments) 3 (cursorOn (NComment 0))
           (NComment 0) (Some (NComment 1)) (Some (NComment 1))
           (cursorOn (NComment 0)) (cursorOn (NComment 0)));
    reflexivity.
Defined.

Lemma failed_move_keeps_position_witness :
  next plainDoc (fun _ => twoComments) 3 (cursorOn (NComment 1))
  = Ret (None, cursorOn (NComment 1))
  /\ getCurNode (cursorOn (NComment 1)) = Some (NComment 1).
Proof.
  split; [|reflexivity].
  apply (proj1 (proj2 (proj2
           (failed_move_keeps_position plainDoc (fun _ => twoComments) NEXT 3
              (cursorOn (NComment 1))))) (NComment 1) (cursorOn (NComment 1)));
    reflexivity.
Defined.

Lemma getNode_restores_navigationLoops_witness :
  getNextNode (fun _ => twoComments) 3 (Some (NComment 0)) alwaysTrue false
              (cursorOn (NComment 0))
  = Ret (Some (NComment 1), cursorOn (NComment 0))
  /\ getNavigationLoops (cursorOn (NComment 0)) = true.
Proof.
  split; [reflexivity|].
  apply (proj1 (getNode_restores_navigationLoops (fun _ => twoComments))
           3 (Some (NComment 0)) alwaysTrue false (cursorOn (NComment 0))
           (Some (NComment 1)) (cursorOn (NComment 0))).
  reflexivity.
Defined.

Lemma postDelete_throws_iff_witness :
  fst (postDelete plainDoc (cursorOn (NBlock 1))) = Throw "must call preDelete first"
  /\ getCurNode (snd (postDelete plainDoc (cursorOn (NBlock 1)))) = Some (NBlock 1).
Proof.
  split.
  - apply (proj1 (proj2 (postDelete_throws_iff plainDoc (cursorOn (NBlock 1))))).
    reflexivity.
  - reflexivity.
Defined.

Lemma stepsReturn_siblingCycle step :
  (forall k n, n ∈ cycleNodes ->
     exists m, m ∈ cycleNodes /\ step k siblingCycle n = Ret (Some m)) ->
  stepsReturn (fun _ => siblingCycle) step (getValidationFunction plainDoc NEXT)
              (cursorOn NWorkspace) cycleNodes 0.
Proof.
  intros Hstep n Hn. destruct (Hstep 0 n Hn) as (m & Hm & ->).
  exists (Some m), false. split; [done|]. split.
  - unfold cycleNodes in Hm.
    apply elem_of_union in Hm as [Hm|Hm]; apply elem_of_singleton in Hm as ->; done.
  - by intros ? [= <-].
Qed.

Lemma traversal_returns_witness :
  returns (getNextNodeImpl (fun _ => siblingCycle) 3 (cursorOn NWorkspace)
             (Some (NField 0)) (getValidationFunction plainDoc NEXT) ∅)
  /\ returns (getPreviousNodeImpl (fun _ => siblingCycle) 3 (cursorOn NWorkspace)
             (Some (NField 0)) (getValidationFunction plainDoc NEXT) ∅).
Proof.
  assert (NField 0 ∈ cycleNodes) as H0 by (apply elem_of_union_l; by apply elem_of_singleton).
  assert (NField 1 ∈ cycleNodes) as H1 by (apply elem_of_union_r; by apply elem_of_singleton).
  assert (size cycleNodes = 2) as Hsize.
  { unfold cycleNodes. rewrite size_union, !size_singleton; [done|].
    intros x ->%elem_of_singleton [=]%elem_of_singleton. }
  destruct (traversal_returns_when_steps_return (fun _ => siblingCycle)
              (getValidationFunction plainDoc NEXT) (cursorOn NWorkspace)
              cycleNodes 0) with (n := NField 0) (visited := (∅ : gset Node)) (fuel := 3)
    as (Hnext & Hprev & _).
  - apply getValidationFunction_mono.
  - apply stepsReturn_siblingCycle. intros k n Hn.
    apply elem_of_union in Hn as [Hn|Hn]; apply elem_of_singleton in Hn as ->.
    + exists (NField 1). split; [done|]. by destruct k.
    + exists (NField 0). split; [done|]. by destruct k.
  - apply stepsReturn_siblingCycle. intros k n Hn.
    apply elem_of_union in Hn as [Hn|Hn]; apply elem_of_singleton in Hn as ->.
    + exists (NField 1). split; [done|]. by destruct k.
    + exists (NField 0). split; [done|]. by destruct k.
  - done.
  - rewrite Hsize. lia.
  - by split.
Defined.

Lemma cut_requires_deletable_witness :
  ShortcutItems.passesDeletableCheck lockedBlock = false
  /\ ShortcutItems.isCopyable lockedBlock = true
  /\ ShortcutItems.cutPreconditionFn false (ShortcutItems.mkWorkspace false false)
       (ShortcutItems.mkScope (Some lockedBlock)) = false.
Proof.
  split; [reflexivity|]. split; [reflexivity|].
  apply (ShortcutItemsFacts.cut_requires_deletable false
           (ShortcutItems.mkWorkspace false false) lockedBlock).
  reflexivity.
Defined.

End Witnesses.

(** * Further properties of the cursor *)

Section CursorFacts.

Variable d : Doc.
Variable getNavigator : bool -> Navigator.t.

(** ** Deletion recovery as a two-state machine *)

(** X1. After [preDelete], [postDelete] cannot throw, whatever the
    deletion did to the document: the workspace is always recorded last
    and has no owning block, so some recorded node survives, and the
    cursor lands on a recorded node that is not disposed. *)
Theorem postDelete_after_preDelete_succeeds (d' : Doc) deletedBlock (s s' : State) :
  potentialNodes s' = potentialNodes (preDelete d deletedBlock s) ->
  fst (postDelete d' s') = Normal
  /\ exists nodes node,
       potentialNodes (preDelete d deletedBlock s) = Some nodes
       /\ node ∈ nodes
       /\ notDisposed d' node = true
       /\ getCurNode (snd (postDelete d' s')) = Some node.
Proof.
  intros Hpending. rewrite preDelete_nodes in Hpending |- *.
  set (nodes := _ ++ _ ++ _ ++ _ ++ [NWorkspace]) in *.
  destruct (find (notDisposed d') nodes) as [node|] eqn:Hfind.
  - destruct (postDelete_first_valid d' s' nodes node Hpending Hfind) as [Hn Hc].
    split; [done|]. exists nodes, node.
    apply find_some in Hfind as [Hin Hvalid].
    by rewrite list_elem_of_In.
  - exfalso.
    assert (In NWorkspace nodes) as Hin.
    { unfold nodes. rewrite !in_app_iff. do 4 right. by left. }
    by apply (find_none _ _ Hfind) in Hin.
Qed.

Lemma postDelete_clears_pending (s : State) :
  potentialNodes (snd (postDelete d s)) = None.
Proof.
  unfold postDelete. destruct (potentialNodes s) as [nodes|]; [|done].
  rewrite moveToFirstValid_find.
  destruct (find (notDisposed d) nodes); [|done].
  cbn [snd]. by rewrite potentialNodes_setCurNode.
Qed.

(** X2. [postDelete] consumes the pending list on every path: a second
    [postDelete] without a new [preDelete] throws "must call preDelete
    first" and changes nothing, whether the first one ended normally or
    threw. *)
Theorem postDelete_twice_throws (s : State) :
  postDelete d (snd (postDelete d s))
  = (Throw "must call preDelete first", snd (postDelete d s)).
Proof.
  pose proof (postDelete_clears_pending s) as Hnone.
  unfold postDelete at 1. rewrite Hnone.
  by destruct (snd (postDelete d s)); simpl in *; subst.
Qed.

(** ** What a move changes *)

Lemma move_state direction fuel s r s' :
  move d getNavigator direction fuel s = Ret (r, s') ->
  (r = None /\ s' = s) \/ (exists n, r = Some n /\ s' = setCurNode d n s).
Proof.
  assert (forall (traverse : res (option Node * State)),
    (forall r0 s0, traverse = Ret (r0, s0) -> s0 = s) ->
    ('(newNode, s1) ← traverse;
     match newNode with
     | Some n => Ret (newNode, setCurNode d n s1)
     | None => Ret (newNode, s1)
     end) = Ret (r, s') ->
    (r = None /\ s' = s) \/ (exists n, r = Some n /\ s' = setCurNode d n s)) as Hstep.
  { intros traverse Hstate H.
    apply bind_Ret in H as ([r0 s0] & Htr & H).
    apply Hstate in Htr as ->.
    destruct r0 as [n|]; injection H as <- <-; [right; by exists n|by left]. }
  destruct direction; unfold move, next, prev, in_, out;
    (destruct (getCurNode s) as [c|]; [|intros [= <- <-]; by left]);
    apply Hstep; intros r0 s0 H0.
  - by apply getNextNode_state in H0.
  - by apply getPreviousNode_state in H0.
  - by apply getNextNode_state in H0.
  - by apply getPreviousNode_state in H0.
Qed.

Lemma beeps_setCurNode n s :
  exists extra, beeps (setCurNode d n s) = beeps s ++ extra /\ length extra <= 1.
Proof.
  assert (exists extra : list Z, beeps s = beeps s ++ extra /\ length extra <= 1)
    as Hsame by (exists []; split; [by rewrite app_nil_r|simpl; lia]).
  unfold setCurNode.
  destruct (getSourceBlock d s), (getSourceBlockFromNode d (Some n)); try done.
  case_decide; [|done].
  eexists [_]. split; [done|]. simpl. lia.
Qed.

(** X3. Whatever [next()], [prev()], [in()] or [out()] returns, it leaves
    the pending deletion-recovery list and the loop flag as they were,
    and requests at most one audio cue. *)
Theorem move_frame direction fuel s r s' :
  move d getNavigator direction fuel s = Ret (r, s') ->
  potentialNodes s' = potentialNodes s
  /\ navigationLoops s' = navigationLoops s
  /\ exists extra, beeps s' = beeps s ++ extra /\ length extra <= 1.
Proof.
  intros H. apply move_state in H as [[_ ->]|(n & _ & ->)].
  - repeat split; try done. exists []. split; [by rewrite app_nil_r|simpl; lia].
  - rewrite potentialNodes_setCurNode, navigationLoops_setCurNode.
    repeat split; try done. apply beeps_setCurNode.
Qed.

(** ** What a traversal can return *)

Lemma getValidationFunction_ignores_loops direction loops s fuel candidate :
  getValidationFunction d direction (setNavigationLoops loops s) fuel candidate
  = getValidationFunction d direction s fuel candidate.
Proof. by destruct direction. Qed.

Lemma traversal_result_valid :
  (forall fuel node isValid loop s n s',
      getNextNode getNavigator fuel node isValid loop s = Ret (Some n, s') ->
      exists f, isValid (setNavigationLoops loop s) f (Some n) = Ret true)
  /\ (forall fuel node isValid loop s n s',
      getPreviousNode getNavigator fuel node isValid loop s = Ret (Some n, s') ->
      exists f, isValid (setNavigationLoops loop s) f (Some n) = Ret true).
Proof.
  split; intros fuel node isValid loop s n s' H.
  - apply getNextNode_result in H as [H|H]; [done|].
    by apply getNextNodeImpl_valid in H.
  - apply getPreviousNode_result in H as [H|H]; [done|].
    by apply getPreviousNodeImpl_valid in H.
Qed.

(** X4. A traversal only stops where its predicate allows: a node that
    [getNextNode] or [getPreviousNode] returns was accepted by [isValid]
    (evaluated while the loop flag was the [loop] argument), and the node
    on which [next()], [prev()], [in()] or [out()] lands was accepted by
    the validation function of that direction in the state the move
    started from. *)
Theorem traversal_stops_on_valid_nodes :
  (forall fuel node isValid loop s n s',
      getNextNode getNavigator fuel node isValid loop s = Ret (Some n, s') ->
      exists f, isValid (setNavigationLoops loop s) f (Some n) = Ret true)
  /\ (forall fuel node isValid loop s n s',
      getPreviousNode getNavigator fuel node isValid loop s = Ret (Some n, s') ->
      exists f, isValid (setNavigationLoops loop s) f (Some n) = Ret true)
  /\ (forall direction fuel s n s',
      move d getNavigator direction fuel s = Ret (Some n, s') ->
      exists f, getValidationFunction d direction s f (Some n) = Ret true).
Proof.
  destruct traversal_result_valid as [Hnext Hprev].
  split; [done|]. split; [done|].
  intros direction fuel s n s' H.
  assert (forall traverse : res (option Node * State),
    ('(newNode, s1) ← traverse;
     match newNode with
     | Some n => Ret (newNode, setCurNode d n s1)
     | None => Ret (newNode, s1)
     end) = Ret (Some n, s') ->
    exists s0, traverse = Ret (Some n, s0)) as Hstep.
  { intros traverse Ht. apply bind_Ret in Ht as ([r0 s0] & Htr & Ht).
    exists s0. destruct r0 as [n0|]; [|done]. by injection Ht as -> _. }
  destruct direction; unfold move, next, prev, in_, out in H;
    (destruct (getCurNode s) as [c|]; [|done]);
    apply Hstep in H as (s0 & H).
  - apply Hnext in H as (f & H). exists f.
    by rewrite getValidationFunction_ignores_loops in H.
  - apply Hprev in H as (f & H). exists f.
    by rewrite getValidationFunction_ignores_loops in H.
  - by exists 0.
  - by exists 0.
Qed.

(** X5. Without looping the traversals stop at the ends of the
    workspace: [getPreviousNode] from the first node and [getNextNode]
    from the last node return null without searching, whatever the
    predicate, and leave the state unchanged. *)
Theorem no_loop_stops_at_the_ends fuel n isValid s :
  (getFirstNode getNavigator (setNavigationLoops false s) = Some n ->
   getPreviousNode getNavigator fuel (Some n) isValid false s = Ret (None, s))
  /\ (forall s1,
        getLastNode getNavigator fuel (setNavigationLoops false s) = Ret (Some n, s1) ->
        getNextNode getNavigator fuel (Some n) isValid false s = Ret (None, s)).
Proof.
  split.
  - intros Hfirst. unfold getPreviousNode. cbn [negb andb].
    rewrite bool_decide_eq_true_2 by done.
    cbn [mbind res_bind]. by rewrite setNavigationLoops_restore.
  - intros s1 Hlast.
    pose proof (getLastNode_state _ _ _ _ _ Hlast) as ->.
    unfold getNextNode. rewrite Hlast.
    cbn [mbind res_bind]. rewrite bool_decide_eq_true_2 by done.
    cbn [mbind res_bind]. by rewrite setNavigationLoops_restore.
Qed.

(** X6. With looping on, [in()] and [out()] take exactly one structural
    step, because their predicate accepts everything: [in()] moves to the
    first child of the current node when it has one, and [out()] moves to
    the parent of the current node when it has no previous sibling. *)
Theorem in_out_take_one_step fuel s cur :
  getCurNode s = Some cur ->
  getNavigationLoops s = true ->
  (forall c,
      Navigator.getFirstChild (getNavigator true) cur = Some c ->
      in_ d getNavigator (S fuel) s = Ret (Some c, setCurNode d c s))
  /\ (forall p,
      Navigator.getPreviousSibling (getNavigator true) cur = None ->
      Navigator.getParent (getNavigator true) cur = Some p ->
      out d getNavigator (S fuel) s = Ret (Some p, setCurNode d p s)).
Proof.
  intros Hcur Hloops. split.
  - intros c Hc. unfold in_. rewrite Hcur, Hloops, getNextNode_loop.
    cbn [getNextNodeImpl]. rewrite decide_False by apply not_elem_of_empty.
    unfold nextCandidate. cbn [getNavigationLoops setNavigationLoops navigationLoops].
    rewrite Hc. by destruct fuel.
  - intros p Hsib Hp. unfold out. rewrite Hcur, Hloops, getPreviousNode_loop.
    cbn [getPreviousNodeImpl]. rewrite decide_False by apply not_elem_of_empty.
    unfold previousCandidate. cbn [getNavigationLoops setNavigationLoops navigationLoops].
    rewrite Hsib, Hp. by destruct fuel.
Qed.

(** X7. [getRightMostChild] answers null only for null; for a node it
    answers a node that has no first child, or whose first child is
    [stopIfFound]. *)
Theorem getRightMostChild_is_a_leaf fuel N node stopIfFound r :
  getRightMostChild fuel N node stopIfFound = Ret r ->
  (node = None -> r = None)
  /\ (forall n, node = Some n ->
        exists m, r = Some m
                  /\ (Navigator.getFirstChild N m = None
                      \/ Navigator.getFirstChild N m = Some stopIfFound)).
Proof.
  revert node r. induction fuel as [|fuel IH]; intros node r H;
    (destruct node as [n|]; [|injection H as <-; by split]);
    (split; [done|]); intros ? [= <-]; simpl in H;
    destruct (Navigator.getFirstChild N n) as [c|] eqn:Hc.
  - case_decide as Hstop; [|done]. injection H as <-. subst c.
    exists n. split; [done|by right].
  - injection H as <-. exists n. split; [done|by left].
  - case_decide as Hstop.
    + injection H as <-. subst c. exists n. split; [done|by right].
    + apply bind_Ret in H as (newNode & _ & H).
      apply IH in H as [_ H]. by apply (H newNode).
  - injection H as <-. exists n. split; [done|by left].
Qed.

End CursorFacts.

(** * Further properties of the validation functions *)

Section ValidationFacts.

Variable d : Doc.
Variable getNavigator : bool -> Navigator.t.

(** ** Ancestors *)

Lemma collectParents_spec fuel parent acc parents :
  collectParents d fuel parent acc = Ret parents ->
  (forall p, p ∈ parents <->
             p ∈ acc \/ exists k, parent ≫= parentAfter d k = Some p)
  /\ exists k, parent ≫= parentAfter d k = None.
Proof.
  revert parent acc.
  induction fuel as [|fuel IH]; intros parent acc H;
    destruct parent as [q|]; simpl in H; try done.
  1, 3: injection H as <-; split; [|by exists 0]; intros p; split;
        [by left|by intros [?|[k [=]]]].
  apply IH in H as [Hmem [k Hend]]. split.
  - intros p. rewrite Hmem, elem_of_union, elem_of_singleton. split.
    + intros [[->|Hacc]|[j Hj]].
      * right. by exists 0.
      * by left.
      * right. by exists (S j).
    + intros [Hacc|[[|j] Hj]].
      * left. by right.
      * injection Hj as ->. left. by left.
      * right. by exists j.
  - by exists (S k).
Qed.

Lemma collectParents_returns k : forall parent acc,
  parent ≫= parentAfter d k = None ->
  returns (collectParents d k parent acc).
Proof.
  induction k as [|k IH]; intros [q|] acc H; try done; try by eexists.
  simpl. by apply IH.
Qed.

(** X8. [getParents(block)] is the set of the proper ancestors of
    [block]: when it returns, a block is in the result exactly when some
    positive number of [getParent()] steps leads from [block] to it, and
    the chain of parents of [block] ends; conversely, when the chain ends
    after [k] steps, [k] units of fuel let [getParents] return. *)
Theorem getParents_are_the_ancestors (b : BlockId) :
  (forall fuel parents,
      getParents d fuel b = Ret parents ->
      (forall p, p ∈ parents <-> exists k, parentAfter d (S k) b = Some p)
      /\ exists k, parentAfter d (S k) b = None)
  /\ (forall k, parentAfter d (S k) b = None -> returns (getParents d k b)).
Proof.
  split.
  - intros fuel parents H. apply collectParents_spec in H as [Hmem Hend].
    split; [|done]. intros p. rewrite Hmem. split.
    + by intros [?%not_elem_of_empty|?].
    + by right.
  - intros k H. by apply collectParents_returns.
Qed.

(** ** Candidates that are not blocks, and cursors outside every block *)

(** X9. For NEXT and PREVIOUS, when the candidate is not a block, or the
    current node has no owning block (a comment, the workspace, or no
    node at all), the validation function answers, with any fuel, exactly
    the condition of its first test: fields, null, and output or previous
    connections are never accepted, and from a comment only blocks not
    plugged into a parent, comments, next connections and the later
    inputs of statement blocks are. *)
Theorem validation_is_first_test direction s fuel candidate :
  direction = NEXT \/ direction = PREVIOUS ->
  (forall b, candidate <> Some (NBlock b))
  \/ getSourceBlockFromNode d (getCurNode s) = None ->
  getValidationFunction d direction s fuel candidate = Ret (startsLine d candidate).
Proof.
  intros Hdir Hside.
  assert (match candidate, getSourceBlockFromNode d (getCurNode s) with
          | Some (NBlock _), Some _ => False
          | _, _ => True
          end) as Hshape.
  { destruct Hside as [Hcand| ->].
    - destruct candidate as [[b| | | |]|]; try done. by destruct (Hcand b).
    - by destruct candidate as [[b| | | |]|]. }
  destruct Hdir as [-> | ->]; cbn [getValidationFunction isPrevious andb].
  - destruct (startsLine d candidate); [done|].
    destruct candidate as [[b| | | |]|]; try done.
    by destruct (getSourceBlockFromNode d (getCurNode s)).
  - destruct (startsLine d candidate); [done|].
    destruct (leavesNextConnection _ _ _); [done|].
    destruct (pluggedInSameRow _ _); [done|].
    destruct candidate as [[b| | | |]|]; try done.
    by destruct (getSourceBlockFromNode d (getCurNode s)).
Qed.

(** ** Blocks nested in the current block *)

(** X10. With the cursor on a block, NEXT and PREVIOUS never accept a
    value block nested, directly or not, in that block: a candidate block
    that does not pass the first test and has the current block among
    its ancestors is rejected. *)
Theorem nested_block_rejected direction s fuel cur cand parents :
  direction = NEXT \/ direction = PREVIOUS ->
  getCurNode s = Some (NBlock cur) ->
  startsLine d (Some (NBlock cand)) = false ->
  getParents d fuel cand = Ret parents ->
  cur ∈ parents ->
  getValidationFunction d direction s fuel (Some (NBlock cand)) = Ret false.
Proof.
  intros Hdir Hcur Hstart Hparents Hin.
  destruct Hdir as [-> | ->]; cbn [getValidationFunction isPrevious andb];
    rewrite Hstart, Hcur; cbn [getSourceBlockFromNode].
  - destruct (parentUsesInlineInputs d cand); [done|].
    rewrite Hparents. cbn [mbind res_bind].
    by rewrite !bool_decide_eq_true_2.
  - destruct (leavesNextConnection _ _ _); [done|].
    destruct (pluggedInSameRow _ _); [done|].
    destruct (parentUsesInlineInputs d cand); [done|].
    rewrite Hparents. cbn [mbind res_bind].
    by rewrite !bool_decide_eq_true_2.
Qed.

(** ** Blocks on the same row *)

(** X12. The row rule for moving forward between two blocks.  With the
    cursor inside the block [cur], a candidate value block that is not
    nested in the current node and whose own parent does not render its
    inputs inline is accepted by the NEXT validation function exactly
    when the two blocks have no ancestor in common, or have a common
    ancestor that does not render its inputs inline. *)
Theorem shared_ancestor_rule s fuel cur cand candidateParents currentParents :
  getSourceBlockFromNode d (getCurNode s) = Some cur ->
  startsLine d (Some (NBlock cand)) = false ->
  parentUsesInlineInputs d cand = false ->
  getParents d fuel cand = Ret candidateParents ->
  getParents d fuel cur = Ret currentParents ->
  (getCurNode s = Some (NBlock cur) -> cur ∉ candidateParents) ->
  exists accepted,
    getValidationFunction d NEXT s fuel (Some (NBlock cand)) = Ret accepted
    /\ (accepted = true <->
        (forall p, p ∈ currentParents -> p ∉ candidateParents)
        \/ exists p, p ∈ currentParents /\ p ∈ candidateParents
                     /\ BlockSvg.getInputsInline (block d p) = false).
Proof.
  intros Hcur Hstart Hinline Hcand Hcurp Hnested.
  cbn [getValidationFunction isPrevious andb].
  rewrite Hstart, Hcur, Hinline, Hcand. cbn [mbind res_bind].
  assert (bool_decide (Some (NBlock cur) = getCurNode s)
          && bool_decide (cur ∈ candidateParents) = false) as ->.
  { apply andb_false_iff.
    destruct (decide (getCurNode s = Some (NBlock cur))) as [Heq|Hne].
    - right. apply bool_decide_eq_false. by apply Hnested.
    - left. apply bool_decide_eq_false. congruence. }
  rewrite Hcurp. cbn [mbind res_bind]. eexists. split; [done|].
  rewrite orb_true_iff, Nat.eqb_eq, size_empty_iff, existsb_exists. split.
  - intros [Hempty|(p & Hp & Hinl)].
    + left. intros p Hc Hd. apply (proj1 (elem_of_equiv_empty _) Hempty p).
      by apply elem_of_intersection.
    + right. exists p.
      apply list_elem_of_In, elem_of_elements, elem_of_intersection in Hp as [? ?].
      by apply negb_true_iff in Hinl.
  - intros [Hdisjoint|(p & Hc & Hd & Hinl)].
    + left. apply elem_of_equiv_empty.
      intros p [Hc Hd]%elem_of_intersection. by destruct (Hdisjoint p).
    + right. exists p. split.
      * apply list_elem_of_In, elem_of_elements. by apply elem_of_intersection.
      * by apply negb_true_iff.
Qed.

(** ** Inline children when moving forward *)

Lemma inline_child_invalid_next s fuel y x :
  outputTargetBlock d y = Some x ->
  BlockSvg.getInputsInline (block d x) = true ->
  getValidationFunction d NEXT s fuel (Some (NBlock y)) = Ret false.
Proof.
  intros Hx Hinline. simpl. rewrite Hx.
  destruct (getSourceBlockFromNode d (getCurNode s)); [|done].
  unfold parentUsesInlineInputs. by rewrite Hx, Hinline.
Qed.

(** X11. Moving forward obeys the same row rule as moving backward: a
    block plugged into a parent that renders its inputs inline is
    rejected by the NEXT validation function whatever the current node,
    so neither the forward traversal under that function nor [next()]
    ever returns it. *)
Theorem inline_child_rejected_next y x :
  outputTargetBlock d y = Some x ->
  BlockSvg.getInputsInline (block d x) = true ->
  (forall s fuel,
      getValidationFunction d NEXT s fuel (Some (NBlock y)) = Ret false)
  /\ (forall fuel node loop s r s',
      getNextNode getNavigator fuel node (getValidationFunction d NEXT) loop s
      = Ret (r, s') ->
      r <> Some (NBlock y))
  /\ (forall fuel s r s',
      next d getNavigator fuel s = Ret (r, s') -> r <> Some (NBlock y)).
Proof.
  intros Hx Hinline.
  assert (forall fuel node loop s r s',
      getNextNode getNavigator fuel node (getValidationFunction d NEXT) loop s
      = Ret (r, s') ->
      r <> Some (NBlock y)) as Htraverse.
  { intros fuel node loop s r s' H ->.
    apply getNextNode_result in H as [H|H]; [done|].
    apply getNextNodeImpl_valid in H as (f & H).
    by rewrite (inline_child_invalid_next _ _ _ _ Hx Hinline) in H. }
  split; [|split]; [|done|].
  - intros s fuel. by apply inline_child_invalid_next with x.
  - intros fuel s r s' H. unfold next in H.
    destruct (getCurNode s) as [c|]; [|by injection H as <- _].
    apply bind_Ret in H as ([r0 s1] & Hnext & H).
    apply Htraverse in Hnext.
    destruct r0; injection H as <- _; done.
Qed.

End ValidationFacts.

(** * Properties of the default shortcuts *)

Module DefaultShortcutsFacts.
Import ShortcutItems DefaultShortcuts.

(** X13. On a workspace that is not a flyout, Cut is admitted exactly
    when both Copy and Delete are. *)
Theorem cut_iff_copy_and_delete ephemeralFocusTaken workspace scope :
  isFlyout workspace = false ->
  cutPreconditionFn ephemeralFocusTaken (asWorkspace workspace) scope
  = copyPreconditionFn ephemeralFocusTaken workspace scope
    && deletePreconditionFn ephemeralFocusTaken (asWorkspace workspace) scope.
Proof.
  intros Hflyout.
  unfold cutPreconditionFn, copyPreconditionFn, deletePreconditionFn, targetOf,
    isCuttable.
  rewrite Hflyout. destruct (focusedNode scope) as [focused|].
  - destruct (isReadOnly _), (isDragging _), ephemeralFocusTaken,
      (isCopyable focused), (isIDeletable focused), (isDeletable focused); done.
  - by rewrite andb_false_r.
Qed.

(** Copy looks at a workspace only through the workspace it acts for
    (the workspace itself, or the target workspace of a flyout) and, of
    that, only at the drag flag. *)
Lemma copy_depends_on_target_drag ephemeralFocusTaken workspace workspace' scope :
  isDragging <$> targetOf workspace = isDragging <$> targetOf workspace' ->
  copyPreconditionFn ephemeralFocusTaken workspace scope
  = copyPreconditionFn ephemeralFocusTaken workspace' scope.
Proof.
  unfold copyPreconditionFn. intros H.
  destruct (focusedNode scope) as [focused|]; [|done].
  destruct (targetOf workspace) as [t|], (targetOf workspace') as [t'|];
    try done.
  cbn in H. by injection H as ->.
Qed.

(** X14. A read-only workspace refuses Escape, Delete, Cut, Undo and
    Redo, and Paste is refused when the workspace it would paste into is
    read-only.  The admission of Copy never depends on a read-only flag:
    two workspaces whose acting workspaces (the workspace itself, or the
    target workspace of a flyout, possibly missing) agree on the drag
    flag admit Copy alike, whatever their other members. *)
Theorem read_only_admission ephemeralFocusTaken workspace scope :
  isReadOnly workspace = true ->
  escapePreconditionFn workspace = false
  /\ deletePreconditionFn ephemeralFocusTaken workspace scope = false
  /\ cutPreconditionFn ephemeralFocusTaken workspace scope = false
  /\ undoPreconditionFn ephemeralFocusTaken workspace = false
  /\ redoPreconditionFn ephemeralFocusTaken workspace = false
  /\ (forall source data,
        targetOf source = Some workspace ->
        pastePreconditionFn ephemeralFocusTaken (mkClipboard (Some source) data)
        = false)
  /\ (forall (w w' : WorkspaceSvg),
        isDragging <$> targetOf w = isDragging <$> targetOf w' ->
        copyPreconditionFn ephemeralFocusTaken w scope
        = copyPreconditionFn ephemeralFocusTaken w' scope)
  /\ (forall dragging flyout target isRendered,
        copyPreconditionFn ephemeralFocusTaken
          (mkWorkspaceSvg (mkWorkspace true dragging) flyout target isRendered) scope
        = copyPreconditionFn ephemeralFocusTaken
            (mkWorkspaceSvg (mkWorkspace false dragging) flyout
               ((fun t => mkWorkspace false (isDragging t)) <$> target) isRendered)
            scope).
Proof.
  intros Hro.
  unfold escapePreconditionFn, deletePreconditionFn, cutPreconditionFn,
    undoPreconditionFn, redoPreconditionFn.
  rewrite Hro.
  split; [done|]. split; [done|].
  split; [by destruct (focusedNode scope)|].
  split; [done|]. split; [by rewrite andb_false_r|].
  split; [|split].
  - intros source data Htarget. unfold pastePreconditionFn. cbn.
    rewrite Htarget, Hro. destruct (rendered source); [|done].
    by rewrite andb_false_r.
  - intros w w'. apply copy_depends_on_target_drag.
  - intros dragging flyout target isRendered.
    apply copy_depends_on_target_drag. unfold targetOf. cbn.
    destruct flyout; [|done]. by destruct target.
Qed.

(** X15. While a drag is in progress in a workspace, or while an
    exclusive edit session holds the focus, Delete, Cut, Undo, Redo,
    every jump shortcut and Paste into that workspace are refused.  Copy
    is refused while an exclusive edit session holds the focus and while
    the workspace it acts for (the workspace itself, or the target
    workspace of a flyout) is dragging; the drag flag of a flyout itself
    does not matter to Copy. *)
Theorem busy_workspace_admission (d : Doc) ephemeralFocusTaken workspace scope s :
  (isDragging (asWorkspace workspace) = true \/ ephemeralFocusTaken = true ->
   deletePreconditionFn ephemeralFocusTaken (asWorkspace workspace) scope = false
   /\ cutPreconditionFn ephemeralFocusTaken (asWorkspace workspace) scope = false
   /\ undoPreconditionFn ephemeralFocusTaken (asWorkspace workspace) = false
   /\ redoPreconditionFn ephemeralFocusTaken (asWorkspace workspace) = false
   /\ jumpInStackPreconditionFn d ephemeralFocusTaken workspace s = false
   /\ jumpInWorkspacePreconditionFn ephemeralFocusTaken (asWorkspace workspace)
      = false
   /\ (forall source data,
         targetOf source = Some (asWorkspace workspace) ->
         pastePreconditionFn ephemeralFocusTaken (mkClipboard (Some source) data)
         = false))
  /\ (ephemeralFocusTaken = true
      \/ (exists target, targetOf workspace = Some target
                         /\ isDragging target = true) ->
      copyPreconditionFn ephemeralFocusTaken workspace scope = false)
  /\ (isFlyout workspace = true ->
      forall flags,
        copyPreconditionFn ephemeralFocusTaken workspace scope
        = copyPreconditionFn ephemeralFocusTaken
            (mkWorkspaceSvg flags true (targetWorkspace workspace)
               (rendered workspace)) scope).
Proof.
  split; [|split].
  - intros Hbusy.
    assert (negb (isDragging (asWorkspace workspace)) && negb ephemeralFocusTaken
            = false)
      as Hfree by (destruct Hbusy as [-> | ->]; [done|by rewrite andb_false_r]).
    unfold deletePreconditionFn, cutPreconditionFn,
      undoPreconditionFn, redoPreconditionFn, jumpInStackPreconditionFn,
      focusedNodeHasBlockParent, jumpInWorkspacePreconditionFn.
    split; [|split; [|split; [|split; [|split; [|split]]]]].
    + destruct (focusedNode scope) as [focused|]; [|by rewrite andb_false_r].
      rewrite <- !andb_assoc, Hfree. by rewrite !andb_false_r.
    + destruct (focusedNode scope) as [focused|]; [|done].
      rewrite <- (andb_assoc (negb (isReadOnly _))), Hfree.
      by rewrite andb_false_r.
    + by rewrite <- andb_assoc, Hfree, andb_false_r.
    + by rewrite (andb_comm (negb (isDragging _))), <- andb_assoc, Hfree,
        andb_false_r.
    + by rewrite Hfree, andb_false_r.
    + done.
    + intros source data Htarget. unfold pastePreconditionFn. cbn.
      rewrite Htarget. destruct (rendered source); [|done].
      by rewrite <- andb_assoc, Hfree, !andb_false_r.
  - unfold copyPreconditionFn. intros Hbusy.
    destruct (focusedNode scope) as [focused|]; [|done].
    destruct (targetOf workspace) as [t|]; [|done].
    destruct Hbusy as [-> | (t' & [= <-] & ->)]; [|done].
    by rewrite andb_false_r.
  - intros Hflyout flags. apply copy_depends_on_target_drag.
    unfold targetOf. cbn. by rewrite Hflyout.
Qed.

(** X16. When Cut is admitted, its callback copies the node with its
    coordinates and then deletes it exactly once (a block through
    [checkAndDelete], anything else through [dispose]); the node is
    deleted whether or not the copy produced data, and the callback
    answers whether it did.  When the node is missing or cannot be cut,
    the callback does nothing and answers false. *)
Theorem cut_callback_effects ephemeralFocusTaken workspace scope copied :
  (cutPreconditionFn ephemeralFocusTaken workspace scope = true ->
   exists focused,
     focusedNode scope = Some focused
     /\ cutCallback copied scope
        = (copied,
           [ClipboardCopy true;
            match nodeClass focused with
            | IsBlockSvg => CheckAndDelete
            | _ => Dispose
            end]))
  /\ ((forall focused, focusedNode scope = Some focused -> isCuttable focused = false) ->
      cutCallback copied scope = (false, [])).
Proof.
  unfold cutPreconditionFn, cutCallback. split.
  - destruct (focusedNode scope) as [focused|]; [|done].
    intros H. apply andb_true_iff in H as [_ Hcut].
    exists focused. split; [done|]. rewrite Hcut.
    unfold isCuttable, isCopyable in Hcut.
    destruct (isICopyable focused), (isIDeletable focused), (isDraggable focused);
      try done.
    by destruct (nodeClass focused).
  - intros H. destruct (focusedNode scope) as [focused|]; [|done].
    by rewrite (H focused).
Qed.

(** X17. The Delete callback always answers true and always begins by
    preventing the browser's default action.  When Delete is admitted it
    then deletes the node exactly once: a block through
    [checkAndDelete], anything else through [dispose] inside an event
    group.  It never disposes a node that is not a block and does not
    pass the deletable check. *)
Theorem delete_callback_effects ephemeralFocusTaken workspace scope :
  fst (deleteCallback scope) = true
  /\ head (snd (deleteCallback scope)) = Some PreventDefault
  /\ (deletePreconditionFn ephemeralFocusTaken workspace scope = true ->
      exists focused,
        focusedNode scope = Some focused
        /\ snd (deleteCallback scope)
           = PreventDefault ::
             match nodeClass focused with
             | IsBlockSvg => [CheckAndDelete]
             | _ => [SetGroup true; Dispose; SetGroup false]
             end)
  /\ (Dispose ∈ snd (deleteCallback scope) ->
      exists focused,
        focusedNode scope = Some focused
        /\ passesDeletableCheck focused = true).
Proof.
  assert (forall l : list Effect, In Dispose l -> Dispose ∈ l) as Hin
    by (intros l; apply list_elem_of_In).
  unfold deleteCallback, deletePreconditionFn, passesDeletableCheck.
  destruct (focusedNode scope) as [focused|].
  - destruct (isIDeletable focused && isDeletable focused) eqn:Hcheck.
    + repeat split.
      * by destruct (nodeClass focused).
      * by destruct (nodeClass focused).
      * intros _. exists focused. split; [done|]. by destruct (nodeClass focused).
      * intros _. by exists focused.
    + repeat split.
      * by destruct (nodeClass focused).
      * by destruct (nodeClass focused).
      * cbn [andb]. by rewrite andb_false_r.
      * intros H%list_elem_of_In. exfalso.
        destruct (nodeClass focused); cbn in H; intuition discriminate.
  - repeat split; try done.
    + by rewrite andb_false_r.
    + intros H%list_elem_of_In. exfalso. cbn in H. intuition discriminate.
Qed.

(** X18. When a jump inside the stack is admitted, the cursor's source
    block exists and the jump-to-block-start callback answers true and
    focuses that block; the source block is the same afterwards, the
    shortcut is still admitted, and a second jump changes nothing. *)
Theorem jump_block_start_idempotent (d : Doc) ephemeralFocusTaken workspace s :
  jumpInStackPreconditionFn d ephemeralFocusTaken workspace s = true ->
  exists b,
    getSourceBlock d s = Some b
    /\ jumpBlockStartCallback d s = (true, focusNode (NBlock b) s)
    /\ getSourceBlock d (focusNode (NBlock b) s) = Some b
    /\ jumpInStackPreconditionFn d ephemeralFocusTaken workspace
         (focusNode (NBlock b) s) = true
    /\ jumpBlockStartCallback d (focusNode (NBlock b) s)
       = (true, focusNode (NBlock b) s).
Proof.
  unfold jumpInStackPreconditionFn, focusedNodeHasBlockParent, jumpBlockStartCallback.
  intros H.
  apply andb_true_iff in H as [Hfly H].
  apply andb_true_iff in H as [H Hsrc].
  apply andb_true_iff in H as [Hfree _].
  apply bool_decide_eq_true in Hsrc as [b Hb].
  exists b. rewrite Hb, Hfly, Hfree. by repeat split.
Qed.

End DefaultShortcutsFacts.

(** * Properties of WorkspaceAudio *)

Module WorkspaceAudioFacts.
Import WorkspaceAudio.

Section AudioFacts.

Context {Volume : Type} (isZero : Volume -> bool) (fullVolume : Volume).

(** X19. A manager that is muted, is asked for volume zero, or has no
    audio context plays nothing and changes nothing, and does not pass
    the request on to the managers of its parent workspaces either. *)
Theorem play_silent this ancestors name opt_volume now :
  muted this = true
  \/ (exists v, opt_volume = Some v /\ isZero v = true)
  \/ context this = None ->
  play isZero fullVolume this ancestors name opt_volume now = (this, ancestors, []).
Proof.
  intros H.
  assert (muted this
          || match opt_volume with Some v => isZero v | None => false end
          || negb (bool_decide (is_Some (context this))) = true) as Hguard.
  { destruct H as [-> | [(v & -> & ->) | ->]]; [done| |].
    - by rewrite orb_true_r.
    - by rewrite orb_true_r. }
  destruct ancestors; simpl; by rewrite Hguard.
Qed.

Lemma hears_guard this opt_volume :
  hears isZero this opt_volume ->
  muted this
  || match opt_volume with Some v => isZero v | None => false end
  || negb (bool_decide (is_Some (context this))) = false.
Proof.
  intros (-> & Hv & Hc). rewrite bool_decide_eq_true_2 by done.
  destruct opt_volume as [v|]; [|done]. by rewrite (Hv v).
Qed.

(** What [play] does when the manager hears the request and knows the
    sound. *)
Lemma play_known this ancestors name opt_volume now sound :
  hears isZero this opt_volume ->
  sounds this !! name = Some sound ->
  play isZero fullVolume this ancestors name opt_volume now =
  if match lastSound this with
     | Some last => (now - last <? SOUND_LIMIT)%Z
     | None => false
     end
  then (this, ancestors, [])
  else (mk (sounds this) (Some now) (muted this) (context this), ancestors,
        match context this with
        | Some Suspended => [ResumeThenStart sound (default fullVolume opt_volume)]
        | _ => [Start sound (default fullVolume opt_volume)]
        end).
Proof.
  intros Hhears Hsound. apply hears_guard in Hhears.
  destruct ancestors; simpl; rewrite Hhears, Hsound;
    destruct (lastSound this); try done; by destruct (_ <? _)%Z.
Qed.

Lemma hears_contextReports this opt_volume c :
  hears isZero this opt_volume -> hears isZero (contextReports c this) opt_volume.
Proof.
  intros (Hm & Hv & [c0 Hc]). repeat split; [done|done|].
  unfold contextReports. cbn [context]. rewrite Hc. by exists c.
Qed.

(** X20. Requests are throttled per manager against the last request it
    accepted.  A request that the manager hears, for a sound it knows,
    at least [SOUND_LIMIT] (100) milliseconds after the previous accepted
    one, is accepted: the manager records its time [t1] and calls
    [source.start()], or, on a suspended context, calls
    [context.resume()] with the start as its continuation.  Whatever
    state the context reports afterwards, a request at time [t2] for any
    sound the manager knows is dropped, leaving the manager as it is,
    when [t2 - t1] is less than [SOUND_LIMIT], and is accepted in the
    same way, recording [t2], otherwise. *)
Theorem play_throttled this ancestors name1 name2 volume1 volume2 t1 t2
    sound1 sound2 state2 :
  hears isZero this volume1 ->
  hears isZero this volume2 ->
  sounds this !! name1 = Some sound1 ->
  sounds this !! name2 = Some sound2 ->
  (forall last, lastSound this = Some last -> (SOUND_LIMIT <= t1 - last)%Z) ->
  exists this1 events1,
    play isZero fullVolume this ancestors name1 volume1 t1
    = (this1, ancestors, events1)
    /\ (context this = Some Suspended ->
        events1 = [ResumeThenStart sound1 (default fullVolume volume1)])
    /\ (context this <> Some Suspended ->
        events1 = [Start sound1 (default fullVolume volume1)])
    /\ lastSound this1 = Some t1
    /\ ((t2 - t1 < SOUND_LIMIT)%Z ->
        play isZero fullVolume (contextReports state2 this1) ancestors
             name2 volume2 t2
        = (contextReports state2 this1, ancestors, []))
    /\ ((SOUND_LIMIT <= t2 - t1)%Z ->
        exists this2 events2,
          play isZero fullVolume (contextReports state2 this1) ancestors
               name2 volume2 t2
          = (this2, ancestors, events2)
          /\ (state2 = Suspended ->
              events2 = [ResumeThenStart sound2 (default fullVolume volume2)])
          /\ (state2 <> Suspended ->
              events2 = [Start sound2 (default fullVolume volume2)])
          /\ lastSound this2 = Some t2).
Proof.
  intros Hh1 Hh2 Hs1 Hs2 Hfree.
  rewrite (play_known _ _ _ _ _ _ Hh1 Hs1).
  assert (match lastSound this with
          | Some last => (t1 - last <? SOUND_LIMIT)%Z
          | None => false
          end = false) as ->.
  { destruct (lastSound this) as [last|]; [|done].
    apply Z.ltb_ge. by apply Hfree. }
  set (this1 := mk (sounds this) (Some t1) (muted this) (context this)).
  eexists this1, _. split; [done|].
  split; [by intros ->|].
  split; [intros Hne; by destruct (context this) as [[| |]|]|].
  split; [done|].
  assert (hears isZero (contextReports state2 this1) volume2) as Hh2'
    by (by apply hears_contextReports).
  assert (context (contextReports state2 this1) = Some state2) as Hstate.
  { destruct Hh2 as (_ & _ & [c Hc]). unfold contextReports, this1.
    cbn [context]. by rewrite Hc. }
  split.
  - intros Hlt. rewrite (play_known _ _ _ _ _ sound2 Hh2') by done.
    cbn [lastSound contextReports this1].
    by rewrite (proj2 (Z.ltb_lt _ _) Hlt).
  - intros Hge. rewrite (play_known _ _ _ _ _ sound2 Hh2') by done.
    rewrite Hstate.
    cbn [lastSound contextReports this1].
    rewrite (proj2 (Z.ltb_ge _ _) Hge).
    eexists _, _. split; [done|].
    split; [by intros ->|].
    split; [intros Hne; by destruct state2|done].
Qed.

(** X21. A sound that neither the manager nor any manager of its parent
    workspaces knows is ignored: nothing is played and nothing
    changes. *)
Theorem play_unknown_sound name opt_volume now : forall ancestors this,
  (forall m, m ∈ this :: ancestors -> sounds m !! name = None) ->
  play isZero fullVolume this ancestors name opt_volume now = (this, ancestors, []).
Proof.
  induction ancestors as [|parent rest IH]; intros this Hunknown; simpl;
    rewrite (Hunknown this) by (by left);
    destruct (_ || _ || _); try done.
  rewrite IH; [done|]. intros m Hm. apply Hunknown. by right.
Qed.

(** X22. One call of [play], on any chain of managers, asks for at most
    one start: for nothing, or for one [source.start()], or for one
    [context.resume()] whose continuation is the start; in both cases at
    the requested volume (full volume when none is given).  When it asks
    for nothing no manager changes; in any case the sounds and the mute
    flag of every manager stay as they were. *)
Theorem play_starts_at_most_one_sound name opt_volume now : forall ancestors this,
  exists this' ancestors' (events : list (AudioEvent Volume)),
    play isZero fullVolume this ancestors name opt_volume now
    = (this', ancestors', events)
    /\ Forall2 sameSettings (this :: ancestors) (this' :: ancestors')
    /\ ((events = [] /\ this' = this /\ ancestors' = ancestors)
        \/ exists sound,
             events = [Start sound (default fullVolume opt_volume)]
             \/ events = [ResumeThenStart sound (default fullVolume opt_volume)]).
Proof.
  assert (forall l : list WorkspaceAudio.t, Forall2 sameSettings l l) as Hrefl.
  { induction l; constructor; [done|done]. }
  assert (forall this sound,
    exists events : list (AudioEvent Volume),
      match context this with
      | Some Suspended => [ResumeThenStart sound (default fullVolume opt_volume)]
      | _ => [Start sound (default fullVolume opt_volume)]
      end = events
      /\ (events = [Start sound (default fullVolume opt_volume)]
          \/ events = [ResumeThenStart sound (default fullVolume opt_volume)]))
    as Hissued.
  { intros this sound. destruct (context this) as [[| |]|]; eexists; split; eauto. }
  assert (forall this ancestors sound,
    exists this' ancestors' (events : list (AudioEvent Volume)),
      match lastSound this with
      | Some last =>
          if (now - last <? SOUND_LIMIT)%Z then (this, ancestors, [])
          else
            (mk (sounds this) (Some now) (muted this) (context this), ancestors,
             match context this with
             | Some Suspended =>
                 [ResumeThenStart sound (default fullVolume opt_volume)]
             | _ => [Start sound (default fullVolume opt_volume)]
             end)
      | None =>
          (mk (sounds this) (Some now) (muted this) (context this), ancestors,
           match context this with
           | Some Suspended =>
               [ResumeThenStart sound (default fullVolume opt_volume)]
           | _ => [Start sound (default fullVolume opt_volume)]
           end)
      end = (this', ancestors', events)
      /\ Forall2 sameSettings (this :: ancestors) (this' :: ancestors')
      /\ ((events = [] /\ this' = this /\ ancestors' = ancestors)
          \/ exists sound,
               events = [Start sound (default fullVolume opt_volume)]
               \/ events = [ResumeThenStart sound (default fullVolume opt_volume)]))
    as Hknown.
  { intros this ancestors sound.
    destruct (Hissued this sound) as (events & -> & Hevents).
    destruct (lastSound this) as [last|]; [destruct (_ <? _)%Z|].
    - by eexists _, _, _; repeat split; auto.
    - eexists _, _, _. split; [done|]. split; [by repeat constructor|].
      right. by exists sound.
    - eexists _, _, _. split; [done|]. split; [by repeat constructor|].
      right. by exists sound. }
  induction ancestors as [|parent rest IH]; intros this; cbn [play];
    (destruct (_ || _ || _); [by eexists _, _, _; repeat split; auto|]);
    (destruct (sounds this !! name) as [sound|]; [apply Hknown|]).
  - by eexists _, _, _; repeat split; auto.
  - destruct (IH parent) as (parent' & rest' & events & -> & Hsame & Hevents).
    eexists _, _, _. split; [done|]. split; [by constructor|].
    destruct Hevents as [(-> & -> & ->)|Hstart]; [by left|by right].
Qed.

(** X23. Loading and playing.  [load] with an empty list of file names,
    on a manager without a context, or when decoding yields no buffer,
    leaves the manager as it is.  After a load that decoded a buffer, a
    request for that name that the manager hears and that is not
    throttled asks for exactly that buffer: through [source.start()], or,
    on a suspended context, through [context.resume()] with the start as
    its continuation. *)
Theorem load_then_play this ancestors file files name audioBuffer opt_volume now :
  (forall decoded, load this [] name decoded = this)
  /\ (context this = None ->
      forall decoded, load this (file :: files) name decoded = this)
  /\ load this (file :: files) name None = this
  /\ (hears isZero this opt_volume ->
      (forall last, lastSound this = Some last -> (SOUND_LIMIT <= now - last)%Z) ->
      exists this' events,
        play isZero fullVolume
             (load this (file :: files) name (Some audioBuffer)) ancestors
             name opt_volume now
        = (this', ancestors, events)
        /\ lastSound this' = Some now
        /\ (context this = Some Suspended ->
            events = [ResumeThenStart audioBuffer (default fullVolume opt_volume)])
        /\ (context this <> Some Suspended ->
            events = [Start audioBuffer (default fullVolume opt_volume)])).
Proof.
  split; [done|].
  split; [intros Hnone decoded; unfold load; by rewrite Hnone|].
  split; [unfold load; by destruct (context this)|].
  intros Hhears Hfree.
  destruct Hhears as (Hmuted & Hvol & [c Hc]).
  unfold load. rewrite Hc.
  set (loaded := mk _ _ _ _).
  assert (hears isZero loaded opt_volume) as Hh
    by (repeat split; [done|done|by exists c]).
  rewrite (play_known _ _ _ _ _ audioBuffer Hh) by apply lookup_insert_eq.
  cbn [lastSound context loaded].
  assert (match lastSound this with
          | Some last => (now - last <? SOUND_LIMIT)%Z
          | None => false
          end = false) as ->.
  { destruct (lastSound this) as [last|]; [|done].
    apply Z.ltb_ge. by apply Hfree. }
  eexists _, _. split; [done|]. split; [done|].
  split; [by intros [= ->]|].
  intros Hne. by destruct c.
Qed.

(** X24. After [dispose] a manager starts no sound of its own: a request
    leaves the disposed manager unchanged, and with no parent workspace
    nothing is played at all. *)
Theorem play_after_dispose this ancestors name opt_volume now :
  exists ancestors' events,
    play isZero fullVolume (fst (dispose (Volume:=Volume) this)) ancestors name opt_volume now
    = (fst (dispose (Volume:=Volume) this), ancestors', events)
    /\ (ancestors = [] -> events = []).
Proof.
  unfold dispose. cbn [fst].
  destruct ancestors as [|parent rest]; cbn [play sounds].
  - rewrite lookup_empty. destruct (_ || _ || _); by eexists _, _.
  - rewrite lookup_empty. destruct (_ || _ || _); [by eexists _, _|].
    destruct (play _ _ _ _ _ _ _) as [[parent' rest'] events].
    by eexists _, _.
Qed.

End AudioFacts.

End WorkspaceAudioFacts.

(** * The further properties at concrete inputs *)

Section MoreWitnesses.

Import Examples MoreExamples.

Lemma postDelete_after_preDelete_succeeds_witness :
  fst (postDelete stackAfter (preDelete stackBefore blockB (cursorOn (NBlock blockB))))
  = Normal.
Proof.
  apply (postDelete_after_preDelete_succeeds stackBefore stackAfter blockB
           (cursorOn (NBlock blockB))).
  reflexivity.
Defined.

Lemma move_frame_witness :
  next plainDoc (fun _ => twoComments) 3 (cursorOn (NComment 0))
  = Ret (Some (NComment 1), cursorOn (NComment 1))
  /\ potentialNodes (cursorOn (NComment 1)) = potentialNodes (cursorOn (NComment 0)).
Proof.
  split; [reflexivity|].
  apply (move_frame plainDoc (fun _ => twoComments) NEXT 3 (cursorOn (NComment 0))
           (Some (NComment 1)) (cursorOn (NComment 1))).
  reflexivity.
Defined.

Lemma traversal_stops_on_valid_nodes_witness :
  exists f,
    getValidationFunction plainDoc NEXT (cursorOn (NComment 0)) f (Some (NComment 1))
    = Ret true.
Proof.
  apply (proj2 (proj2 (traversal_stops_on_valid_nodes plainDoc (fun _ => twoComments)))
           NEXT 3 (cursorOn (NComment 0)) (NComment 1) (cursorOn (NComment 1))).
  reflexivity.
Defined.

Lemma no_loop_stops_at_the_ends_witness :
  getPreviousNode loopAware 0 (Some (NComment 0)) alwaysTrue false
                  (cursorOn (NComment 0))
  = Ret (None, cursorOn (NComment 0))
  /\ getNextNode loopAware 3 (Some (NComment 1)) alwaysTrue false
                 (cursorOn (NComment 1))
     = Ret (None, cursorOn (NComment 1)).
Proof.
  split.
  - apply (proj1 (no_loop_stops_at_the_ends loopAware 0 (NComment 0)
                    alwaysTrue (cursorOn (NComment 0)))).
    reflexivity.
  - apply (proj2 (no_loop_stops_at_the_ends loopAware 3 (NComment 1)
                    alwaysTrue (cursorOn (NComment 1)))
             (setNavigationLoops false (cursorOn (NComment 1)))).
    reflexivity.
Defined.

Lemma in_out_take_one_step_witness :
  in_ plainDoc (fun _ => twoComments) 1 (cursorOn NWorkspace)
  = Ret (Some (NComment 0), setCurNode plainDoc (NComment 0) (cursorOn NWorkspace))
  /\ out plainDoc (fun _ => twoComments) 1 (cursorOn (NComment 0))
     = Ret (Some NWorkspace, setCurNode plainDoc NWorkspace (cursorOn (NComment 0))).
Proof.
  split.
  - apply (proj1 (in_out_take_one_step plainDoc (fun _ => twoComments) 0
                    (cursorOn NWorkspace) NWorkspace eq_refl eq_refl)).
    reflexivity.
  - apply (proj2 (in_out_take_one_step plainDoc (fun _ => twoComments) 0
                    (cursorOn (NComment 0)) (NComment 0) eq_refl eq_refl));
      reflexivity.
Defined.

Lemma getRightMostChild_is_a_leaf_witness :
  getRightMostChild 3 twoComments (Some NWorkspace) (NField 0) = Ret (Some (NComment 1))
  /\ exists m,
       Some (NComment 1) = Some m
       /\ (Navigator.getFirstChild twoComments m = None
           \/ Navigator.getFirstChild twoComments m = Some (NField 0)).
Proof.
  split; [reflexivity|].
  apply (proj2 (getRightMostChild_is_a_leaf 3 twoComments (Some NWorkspace) (NField 0)
                  (Some (NComment 1)) eq_refl) NWorkspace).
  reflexivity.
Defined.

Lemma getParents_are_the_ancestors_witness :
  parentAfter stackBefore 3 blockC = None
  /\ returns (getParents stackBefore 2 blockC).
Proof.
  split; [reflexivity|].
  apply (proj2 (getParents_are_the_ancestors stackBefore blockC) 2).
  reflexivity.
Defined.

Lemma validation_is_first_test_witness :
  getValidationFunction plainDoc PREVIOUS (cursorOn (NBlock 1)) 0 (Some (NField 0))
  = Ret false.
Proof.
  apply (validation_is_first_test plainDoc PREVIOUS (cursorOn (NBlock 1)) 0
           (Some (NField 0))).
  - by right.
  - left. by intros b.
Defined.

Lemma nested_block_rejected_witness :
  getParents externalParent 2 2 = Ret ({[1]} ∪ ∅)
  /\ getValidationFunction externalParent NEXT (cursorOn (NBlock 1)) 2 (Some (NBlock 2))
     = Ret false.
Proof.
  split; [reflexivity|].
  apply (nested_block_rejected externalParent NEXT (cursorOn (NBlock 1)) 2 1 2
           ({[1]} ∪ ∅)).
  - by left.
  - reflexivity.
  - reflexivity.
  - reflexivity.
  - apply elem_of_union_l. by apply elem_of_singleton.
Defined.

Lemma inline_child_rejected_next_witness :
  outputTargetBlock inlineParent 2 = Some 1
  /\ getValidationFunction inlineParent NEXT (cursorOn (NBlock 1)) 0 (Some (NBlock 2))
     = Ret false.
Proof.
  split; [reflexivity|].
  apply (inline_child_rejected_next inlineParent (fun _ => twoComments) 2 1);
    reflexivity.
Defined.

Lemma shared_ancestor_rule_witness :
  exists accepted,
    getValidationFunction externalParent NEXT (cursorOn (NBlock 3)) 2 (Some (NBlock 2))
    = Ret accepted
    /\ (accepted = true <->
        (forall p, p ∈ (∅ : gset BlockId) -> p ∉ ({[1]} ∪ ∅ : gset BlockId))
        \/ exists p, p ∈ (∅ : gset BlockId) /\ p ∈ ({[1]} ∪ ∅ : gset BlockId)
                     /\ BlockSvg.getInputsInline (block externalParent p) = false).
Proof.
  apply (shared_ancestor_rule externalParent (cursorOn (NBlock 3)) 2 3 2
           ({[1]} ∪ ∅) ∅); try reflexivity.
  intros _ [H|H]%elem_of_union.
  - by apply elem_of_singleton in H.
  - by apply not_elem_of_empty in H.
Defined.

Lemma cut_iff_copy_and_delete_witness :
  ShortcutItems.cutPreconditionFn false editable (ShortcutItems.mkScope (Some freeBlock))
  = true
  /\ DefaultShortcuts.copyPreconditionFn false (mainWorkspace editable)
       (ShortcutItems.mkScope (Some freeBlock))
     && DefaultShortcuts.deletePreconditionFn false editable
          (ShortcutItems.mkScope (Some freeBlock)) = true.
Proof.
  split; [reflexivity|].
  exact (eq_trans
           (eq_sym (DefaultShortcutsFacts.cut_iff_copy_and_delete false
                      (mainWorkspace editable)
                      (ShortcutItems.mkScope (Some freeBlock)) eq_refl))
           eq_refl).
Defined.

Lemma read_only_admission_witness :
  DefaultShortcuts.deletePreconditionFn false readOnly
    (ShortcutItems.mkScope (Some freeBlock)) = false
  /\ DefaultShortcuts.copyPreconditionFn false (mainWorkspace readOnly)
       (ShortcutItems.mkScope (Some freeBlock))
     = DefaultShortcuts.copyPreconditionFn false (mainWorkspace editable)
         (ShortcutItems.mkScope (Some freeBlock))
  /\ DefaultShortcuts.copyPreconditionFn false (mainWorkspace editable)
       (ShortcutItems.mkScope (Some freeBlock)) = true.
Proof.
  destruct (DefaultShortcutsFacts.read_only_admission false readOnly
              (ShortcutItems.mkScope (Some freeBlock)) eq_refl)
    as (_ & Hdelete & _ & _ & _ & _ & Hcopy & _).
  split; [exact Hdelete|]. split; [|reflexivity].
  apply Hcopy. reflexivity.
Defined.

Lemma busy_workspace_admission_witness :
  DefaultShortcuts.deletePreconditionFn false dragging
    (ShortcutItems.mkScope (Some freeBlock)) = false
  /\ DefaultShortcuts.copyPreconditionFn false (mainWorkspace dragging)
       (ShortcutItems.mkScope (Some freeBlock)) = false
  /\ DefaultShortcuts.copyPreconditionFn false
       (DefaultShortcuts.mkWorkspaceSvg dragging true (Some editable) true)
       (ShortcutItems.mkScope (Some freeBlock)) = true
  /\ DefaultShortcuts.escapePreconditionFn dragging = true.
Proof.
  destruct (DefaultShortcutsFacts.busy_workspace_admission plainDoc false
              (mainWorkspace dragging) (ShortcutItems.mkScope (Some freeBlock))
              (cursorOn NWorkspace))
    as (Hbusy & Hcopy & _).
  split; [apply Hbusy; by left|].
  split; [|split; reflexivity].
  apply Hcopy. right. by exists dragging.
Defined.

Lemma cut_callback_effects_witness :
  exists focused,
    ShortcutItems.focusedNode (ShortcutItems.mkScope (Some freeBlock)) = Some focused
    /\ DefaultShortcuts.cutCallback false (ShortcutItems.mkScope (Some freeBlock))
       = (false,
          [DefaultShortcuts.ClipboardCopy true;
           match ShortcutItems.nodeClass focused with
           | ShortcutItems.IsBlockSvg => DefaultShortcuts.CheckAndDelete
           | _ => DefaultShortcuts.Dispose
           end]).
Proof.
  apply (proj1 (DefaultShortcutsFacts.cut_callback_effects false editable
                  (ShortcutItems.mkScope (Some freeBlock)) false)).
  reflexivity.
Defined.

Lemma delete_callback_effects_witness :
  exists focused,
    ShortcutItems.focusedNode (ShortcutItems.mkScope (Some freeBlock)) = Some focused
    /\ snd (DefaultShortcuts.deleteCallback (ShortcutItems.mkScope (Some freeBlock)))
       = DefaultShortcuts.PreventDefault ::
         match ShortcutItems.nodeClass focused with
         | ShortcutItems.IsBlockSvg => [DefaultShortcuts.CheckAndDelete]
         | _ => [DefaultShortcuts.SetGroup true; DefaultShortcuts.Dispose;
                 DefaultShortcuts.SetGroup false]
         end.
Proof.
  apply (proj1 (proj2 (proj2 (DefaultShortcutsFacts.delete_callback_effects false editable
                  (ShortcutItems.mkScope (Some freeBlock)))))).
  reflexivity.
Defined.

Lemma jump_block_start_idempotent_witness :
  exists b,
    getSourceBlock inlineParent (cursorOn (NConnection 11)) = Some b
    /\ DefaultShortcuts.jumpBlockStartCallback inlineParent (cursorOn (NConnection 11))
       = (true, focusNode (NBlock b) (cursorOn (NConnection 11)))
    /\ getSourceBlock inlineParent (focusNode (NBlock b) (cursorOn (NConnection 11)))
       = Some b
    /\ DefaultShortcuts.jumpInStackPreconditionFn inlineParent false
         (mainWorkspace editable) (focusNode (NBlock b) (cursorOn (NConnection 11)))
       = true
    /\ DefaultShortcuts.jumpBlockStartCallback inlineParent
         (focusNode (NBlock b) (cursorOn (NConnection 11)))
       = (true, focusNode (NBlock b) (cursorOn (NConnection 11))).
Proof.
  apply (DefaultShortcutsFacts.jump_block_start_idempotent inlineParent false
           (mainWorkspace editable) (cursorOn (NConnection 11))).
  reflexivity.
Defined.

Lemma play_silent_witness :
  WorkspaceAudio.play isSilent 1%Z speaker [] "click" (Some 0%Z) 5000
  = (speaker, [], []).
Proof.
  apply (WorkspaceAudioFacts.play_silent isSilent 1%Z speaker [] "click" (Some 0%Z) 5000).
  right. left. by exists 0%Z.
Defined.

Lemma speaker_hears opt_volume :
  (forall v, opt_volume = Some v -> isSilent v = false) ->
  WorkspaceAudio.hears isSilent speaker opt_volume.
Proof. intros H. repeat split; [done|by eexists]. Qed.

Lemma play_throttled_witness :
  exists this1,
    WorkspaceAudio.play isSilent 1%Z speaker [] "click" None 5000
    = (this1, [], [WorkspaceAudio.Start 7 1%Z])
    /\ WorkspaceAudio.play isSilent 1%Z
         (WorkspaceAudio.contextReports WorkspaceAudio.Suspended this1) []
         "delete" None 5099
       = (WorkspaceAudio.contextReports WorkspaceAudio.Suspended this1, [], []).
Proof.
  destruct (WorkspaceAudioFacts.play_throttled isSilent 1%Z speaker [] "click" "delete"
              None None 5000%Z 5099%Z 7 8 WorkspaceAudio.Suspended)
    as (this1 & events1 & Hplay & _ & Hstart & _ & Hdrop & _).
  - by apply speaker_hears.
  - by apply speaker_hears.
  - reflexivity.
  - reflexivity.
  - by intros last.
  - exists this1. rewrite Hplay, Hstart by done. split; [done|]. by apply Hdrop.
Defined.

Lemma play_unknown_sound_witness :
  WorkspaceAudio.play isSilent 1%Z emptySpeaker [emptySpeaker] "click" None 5000
  = (emptySpeaker, [emptySpeaker], []).
Proof.
  apply (WorkspaceAudioFacts.play_unknown_sound isSilent 1%Z "click" None 5000
           [emptySpeaker] emptySpeaker).
  intros m Hm.
  assert (m = emptySpeaker) as ->; [|done].
  apply elem_of_cons in Hm as [Hm|Hm]; [done|].
  by apply list_elem_of_singleton in Hm.
Defined.

Lemma load_then_play_witness :
  exists this' events,
    WorkspaceAudio.play isSilent 1%Z
      (WorkspaceAudio.load emptySpeaker ["click.mp3"%string] "click" (Some 7))
      [] "click" None 5000
    = (this', [], events)
    /\ WorkspaceAudio.lastSound this' = Some 5000%Z
    /\ events = [WorkspaceAudio.Start 7 1%Z].
Proof.
  destruct (proj2 (proj2 (proj2
             (WorkspaceAudioFacts.load_then_play isSilent 1%Z emptySpeaker []
                "click.mp3"%string [] "click" 7 None 5000))))
    as (this' & events & Hplay & Hlast & _ & Hstart).
  - repeat split; [done|by eexists].
  - by intros last.
  - exists this', events. split; [done|]. split; [done|]. by apply Hstart.
Defined.

End MoreWitnesses.
